(** * overcurrent: the circuit breaker and its state machine

    A shallow embedding of the breaker of package [overcurrent]
    (the [circuitBreaker] type with [Trip], [Reset], [ShouldTry],
    [MarkResult] and [Call]) and of the earlier variant kept in
    [breaker.go], followed by the properties of the state machine.

    Every public method of the breaker runs under one mutex, so a run of
    the breaker is a sequence of such method calls; the embedding is
    sequential and each method is a function in a state monad over the
    breaker.  Calls that leave the breaker (metric collector, trip
    condition, backoff generator, failure interpreter, clock, random
    source) are recorded in a trace, in the order the code makes them. *)

From Stdlib Require Import ZArith QArith Bool List String Lia.
From ExtLib Require Import Structures.Monad.
Import ListNotations.
Import MonadNotation.

Local Open Scope Z_scope.
Local Open Scope monad_scope.

Set Implicit Arguments.

(* ===================================================================== *)
(** ** Time *)
(* ===================================================================== *)

(** [time.Duration] is a signed 64-bit count of nanoseconds; an instant is
    kept as nanoseconds on the breaker's clock.  [Sub] saturates the way
    [time.Time.Sub] does. *)
Module time.

Definition Duration : Type := Z.
Definition Time : Type := Z.

Definition minDuration : Duration := - 2 ^ 63.
Definition maxDuration : Duration := 2 ^ 63 - 1.

Definition Millisecond : Duration := 1000000.

Definition Sub (t u : Time) : Duration :=
  let d := t - u in
  if d <? minDuration then minDuration
  else if maxDuration <? d then maxDuration
  else d.

Definition Add (t : Time) (d : Duration) : Time := t + d.

End time.

(* ===================================================================== *)
(** ** Errors *)
(* ===================================================================== *)

(** A non-nil Go [error].  The two sentinels are compared by identity in
    the source, so they are constructors of their own: an error of the
    protected function that merely carries the same text is an [Errorf]. *)
Inductive error : Type :=
| ErrCircuitOpen
| ErrInvocationTimeout
| Errorf (msg : string).

(** [err == ErrInvocationTimeout] *)
Definition is_ErrInvocationTimeout (err : error) : bool :=
  match err with
  | ErrInvocationTimeout => true
  | _ => false
  end.

(** A possibly nil [error]: [None] is [nil]. *)
Definition result : Type := option error.

(* ===================================================================== *)
(** ** Circuit states and collector events *)
(* ===================================================================== *)

(** [CircuitState] is an [int]; the constants start at 1, the zero value
    is the state of a breaker under construction. *)
Inductive CircuitState : Type :=
| StateZero
| StateOpen
| StateClosed
| StateHalfClosed
| StateHardOpen.

Definition CircuitState_to_Z (s : CircuitState) : Z :=
  match s with
  | StateZero => 0
  | StateOpen => 1
  | StateClosed => 2
  | StateHalfClosed => 3
  | StateHardOpen => 4
  end.

Definition CircuitState_eqb (a b : CircuitState) : bool :=
  CircuitState_to_Z a =? CircuitState_to_Z b.

(** The event types and the [BreakerConfig] the breaker hands to its
    collector; of their declaration the breaker uses these names only. *)
Inductive EventType : Type :=
| EventTypeShortCircuit
| EventTypeRunDuration
| EventTypeTimeout
| EventTypeError
| EventTypeBadRequest.

Record BreakerConfig : Type := { MaxConcurrency : Z }.

(** One entry per call the breaker makes on a collaborator. *)
Inductive Event : Type :=
| ReportNew (config : BreakerConfig)
| ReportState (s : CircuitState)
| ReportCount (e : EventType)
| ReportDuration (e : EventType) (d : time.Duration)
| TripCondition_ShouldTrip
| TripCondition_Success
| TripCondition_Failure
| Backoff_Reset
| Backoff_NextInterval
| FailureInterpreter_ShouldTrip (err : error)
| Clock_Now
| Rand_Float64.

(* ===================================================================== *)
(** ** The strategy interfaces *)
(* ===================================================================== *)

(** A Go interface value is an object of some hidden type together with
    its methods: a carrier, an instance of the method class, and the
    current value. *)

Module backoff.

Class Methods (B : Type) : Type := {
  Reset : B -> B;
  NextInterval : B -> time.Duration * B
}.

Record Backoff : Type := Pack {
  carrier : Type;
  methods : Methods carrier;
  self : carrier
}.

Definition reset (b : Backoff) : Backoff :=
  Pack (methods b) (@Reset _ (methods b) (self b)).

Definition nextInterval (b : Backoff) : time.Duration * Backoff :=
  let (d, s) := @NextInterval _ (methods b) (self b) in
  (d, Pack (methods b) s).

(** The base interval of a generator: what it yields first once it has
    been returned to its starting point. *)
Definition base (b : Backoff) : time.Duration := fst (nextInterval (reset b)).

(** Modelled from the spec: the constant generator the breaker defaults to,
    [backoff.NewConstantBackoff(interval)] of the backoff library (a
    dependency, not part of this repository): every interval is the one
    it was built with. *)
Record constantBackoff : Type := { interval : time.Duration }.

#[export] Instance constantBackoff_Methods : Methods constantBackoff := {
  Reset b := b;
  NextInterval b := (interval b, b)
}.

Definition NewConstantBackoff (d : time.Duration) : Backoff :=
  Pack constantBackoff_Methods {| interval := d |}.

(** Modelled from the spec: a generator with a growing schedule, the
    exponential example of section 4.5 (not part of this repository):
    it starts at [minInterval], doubles at each call and is capped at
    [maxInterval]. *)
Record exponentialBackoff : Type := {
  minInterval : time.Duration;
  maxInterval : time.Duration;
  current : time.Duration
}.

#[export] Instance exponentialBackoff_Methods : Methods exponentialBackoff := {
  Reset b :=
    {| minInterval := minInterval b; maxInterval := maxInterval b;
       current := minInterval b |};
  NextInterval b :=
    (current b,
     {| minInterval := minInterval b; maxInterval := maxInterval b;
        current := Z.min (2 * current b) (maxInterval b) |})
}.

Definition NewExponentialBackoff (lo hi : time.Duration) : Backoff :=
  Pack exponentialBackoff_Methods
       {| minInterval := lo; maxInterval := hi; current := lo |}.

End backoff.

Module TripCondition.

Class Methods (T : Type) : Type := {
  Success : T -> T;
  Failure : T -> T;
  ShouldTrip : T -> bool * T
}.

Record TripCondition : Type := Pack {
  carrier : Type;
  methods : Methods carrier;
  self : carrier
}.

Definition success (t : TripCondition) : TripCondition :=
  Pack (methods t) (@Success _ (methods t) (self t)).

Definition failure (t : TripCondition) : TripCondition :=
  Pack (methods t) (@Failure _ (methods t) (self t)).

Definition shouldTrip (t : TripCondition) : bool * TripCondition :=
  let (b, s) := @ShouldTrip _ (methods t) (self t) in
  (b, Pack (methods t) s).

(** Modelled from the spec: the consecutive-failure trip condition behind
    [NewConsecutiveFailureTripCondition], declared in a file this
    development does not cover: a plain counter reset to zero on success,
    incremented on failure and compared against the threshold (it trips
    after that many failures in a row). *)
Record consecutiveFailureTripCondition : Type := {
  count : Z;
  threshold : Z
}.

#[export] Instance consecutiveFailureTripCondition_Methods :
  Methods consecutiveFailureTripCondition := {
  Success t := {| count := 0; threshold := threshold t |};
  Failure t := {| count := count t + 1; threshold := threshold t |};
  ShouldTrip t := (threshold t <=? count t, t)
}.

Definition consecutive (t : consecutiveFailureTripCondition) : TripCondition :=
  Pack consecutiveFailureTripCondition_Methods t.

Definition NewConsecutiveFailureTripCondition (n : Z) : TripCondition :=
  consecutive {| count := 0; threshold := n |}.

End TripCondition.

Module FailureInterpreter.

Class Methods (F : Type) : Type := {
  ShouldTrip : F -> error -> bool
}.

Record FailureInterpreter : Type := Pack {
  carrier : Type;
  methods : Methods carrier;
  self : carrier
}.

Definition shouldTrip (f : FailureInterpreter) (err : error) : bool :=
  @ShouldTrip _ (methods f) (self f) err.

(** Modelled from the spec: the default interpreter behind
    [NewAnyErrorFailureInterpreter], declared in a file this development
    does not cover: any non-nil error counts. *)
#[export] Instance anyError_Methods : Methods unit := {
  ShouldTrip _ _ := true
}.

Definition NewAnyErrorFailureInterpreter : FailureInterpreter :=
  Pack anyError_Methods tt.

(** An interpreter given by a predicate on errors, such as the
    server-error interpreter of the README. *)
#[export] Instance predicate_Methods : Methods (error -> bool) := {
  ShouldTrip p err := p err
}.

Definition ofPredicate (p : error -> bool) : FailureInterpreter :=
  Pack predicate_Methods p.

End FailureInterpreter.

(* ===================================================================== *)
(** ** The breaker *)
(* ===================================================================== *)

(** The fields of [circuitBreaker].  [halfClosedRetryProbability] is a
    [float64] that is only ever compared with a draw of [rand.Float64];
    finite floats are rationals and the comparison is the one of the
    rationals.  [clock] is the instant the breaker's [glock.Clock]
    currently shows.  The collector is the trace; the mutex is the
    sequential order of the calls. *)
Record circuitBreaker : Type := mkBreaker {
  invocationTimeout : time.Duration;
  halfClosedRetryProbability : Q;
  maxConcurrency : Z;
  maxConcurrencyTimeout : time.Duration;
  resetBackoff : backoff.Backoff;
  failureInterpreter : FailureInterpreter.FailureInterpreter;
  tripCondition : TripCondition.TripCondition;
  clock : time.Time;
  state : CircuitState;
  lastFailureTime : option time.Time;
  resetTimeout : option time.Duration
}.

Definition set_invocationTimeout (v : time.Duration) (cb : circuitBreaker) :=
  mkBreaker v (halfClosedRetryProbability cb) (maxConcurrency cb)
    (maxConcurrencyTimeout cb) (resetBackoff cb) (failureInterpreter cb)
    (tripCondition cb) (clock cb) (state cb) (lastFailureTime cb)
    (resetTimeout cb).

Definition set_halfClosedRetryProbability (v : Q) (cb : circuitBreaker) :=
  mkBreaker (invocationTimeout cb) v (maxConcurrency cb)
    (maxConcurrencyTimeout cb) (resetBackoff cb) (failureInterpreter cb)
    (tripCondition cb) (clock cb) (state cb) (lastFailureTime cb)
    (resetTimeout cb).

Definition set_maxConcurrency (v : Z) (cb : circuitBreaker) :=
  mkBreaker (invocationTimeout cb) (halfClosedRetryProbability cb) v
    (maxConcurrencyTimeout cb) (resetBackoff cb) (failureInterpreter cb)
    (tripCondition cb) (clock cb) (state cb) (lastFailureTime cb)
    (resetTimeout cb).

Definition set_maxConcurrencyTimeout (v : time.Duration) (cb : circuitBreaker) :=
  mkBreaker (invocationTimeout cb) (halfClosedRetryProbability cb)
    (maxConcurrency cb) v (resetBackoff cb) (failureInterpreter cb)
    (tripCondition cb) (clock cb) (state cb) (lastFailureTime cb)
    (resetTimeout cb).

Definition set_resetBackoff (v : backoff.Backoff) (cb : circuitBreaker) :=
  mkBreaker (invocationTimeout cb) (halfClosedRetryProbability cb)
    (maxConcurrency cb) (maxConcurrencyTimeout cb) v (failureInterpreter cb)
    (tripCondition cb) (clock cb) (state cb) (lastFailureTime cb)
    (resetTimeout cb).

Definition set_failureInterpreter (v : FailureInterpreter.FailureInterpreter)
  (cb : circuitBreaker) :=
  mkBreaker (invocationTimeout cb) (halfClosedRetryProbability cb)
    (maxConcurrency cb) (maxConcurrencyTimeout cb) (resetBackoff cb) v
    (tripCondition cb) (clock cb) (state cb) (lastFailureTime cb)
    (resetTimeout cb).

Definition set_tripCondition (v : TripCondition.TripCondition)
  (cb : circuitBreaker) :=
  mkBreaker (invocationTimeout cb) (halfClosedRetryProbability cb)
    (maxConcurrency cb) (maxConcurrencyTimeout cb) (resetBackoff cb)
    (failureInterpreter cb) v (clock cb) (state cb) (lastFailureTime cb)
    (resetTimeout cb).

Definition set_clock (v : time.Time) (cb : circuitBreaker) :=
  mkBreaker (invocationTimeout cb) (halfClosedRetryProbability cb)
    (maxConcurrency cb) (maxConcurrencyTimeout cb) (resetBackoff cb)
    (failureInterpreter cb) (tripCondition cb) v (state cb)
    (lastFailureTime cb) (resetTimeout cb).

Definition set_state (v : CircuitState) (cb : circuitBreaker) :=
  mkBreaker (invocationTimeout cb) (halfClosedRetryProbability cb)
    (maxConcurrency cb) (maxConcurrencyTimeout cb) (resetBackoff cb)
    (failureInterpreter cb) (tripCondition cb) (clock cb) v
    (lastFailureTime cb) (resetTimeout cb).

Definition set_lastFailureTime (v : option time.Time) (cb : circuitBreaker) :=
  mkBreaker (invocationTimeout cb) (halfClosedRetryProbability cb)
    (maxConcurrency cb) (maxConcurrencyTimeout cb) (resetBackoff cb)
    (failureInterpreter cb) (tripCondition cb) (clock cb) (state cb) v
    (resetTimeout cb).

Definition set_resetTimeout (v : option time.Duration) (cb : circuitBreaker) :=
  mkBreaker (invocationTimeout cb) (halfClosedRetryProbability cb)
    (maxConcurrency cb) (maxConcurrencyTimeout cb) (resetBackoff cb)
    (failureInterpreter cb) (tripCondition cb) (clock cb) (state cb)
    (lastFailureTime cb) v.

(* ===================================================================== *)
(** ** The monad of breaker methods *)
(* ===================================================================== *)

(** A method reads and updates the breaker and appends to the trace. *)
Definition M (A : Type) : Type :=
  circuitBreaker -> A * circuitBreaker * list Event.

#[export] Instance Monad_M : Monad M := {
  ret A a := fun cb => (a, cb, []);
  bind A B m k := fun cb =>
    let '(a, cb1, t1) := m cb in
    let '(b, cb2, t2) := k a cb1 in
    (b, cb2, t1 ++ t2)
}.

Definition gets {A : Type} (f : circuitBreaker -> A) : M A :=
  fun cb => (f cb, cb, []).

Definition modify (f : circuitBreaker -> circuitBreaker) : M unit :=
  fun cb => (tt, f cb, []).

Definition emit (e : Event) : M unit :=
  fun cb => (tt, cb, [e]).

Definition when (b : bool) (m : M unit) : M unit :=
  if b then m else ret tt.

(** Value, final breaker and trace of a run. *)
Definition value {A : Type} (r : A * circuitBreaker * list Event) : A :=
  fst (fst r).
Definition final {A : Type} (r : A * circuitBreaker * list Event)
  : circuitBreaker := snd (fst r).
Definition trace {A : Type} (r : A * circuitBreaker * list Event)
  : list Event := snd r.

(** *** Calls on the collaborators *)

(** [cb.tripCondition.ShouldTrip()] *)
Definition tripCondition_ShouldTrip : M bool :=
  tc <- gets tripCondition ;;
  let answer := TripCondition.shouldTrip tc in
  modify (set_tripCondition (snd answer)) ;;
  emit TripCondition_ShouldTrip ;;
  ret (fst answer).

(** [cb.tripCondition.Success()] *)
Definition tripCondition_Success : M unit :=
  tc <- gets tripCondition ;;
  modify (set_tripCondition (TripCondition.success tc)) ;;
  emit TripCondition_Success.

(** [cb.tripCondition.Failure()] *)
Definition tripCondition_Failure : M unit :=
  tc <- gets tripCondition ;;
  modify (set_tripCondition (TripCondition.failure tc)) ;;
  emit TripCondition_Failure.

(** [cb.resetBackoff.Reset()] *)
Definition resetBackoff_Reset : M unit :=
  b <- gets resetBackoff ;;
  modify (set_resetBackoff (backoff.reset b)) ;;
  emit Backoff_Reset.

(** [cb.resetBackoff.NextInterval()] *)
Definition resetBackoff_NextInterval : M time.Duration :=
  b <- gets resetBackoff ;;
  let next := backoff.nextInterval b in
  modify (set_resetBackoff (snd next)) ;;
  emit Backoff_NextInterval ;;
  ret (fst next).

(** [cb.failureInterpreter.ShouldTrip(err)] *)
Definition failureInterpreter_ShouldTrip (err : error) : M bool :=
  fi <- gets failureInterpreter ;;
  emit (FailureInterpreter_ShouldTrip err) ;;
  ret (FailureInterpreter.shouldTrip fi err).

(** [cb.clock.Now()] *)
Definition clock_Now : M time.Time :=
  now <- gets clock ;;
  emit Clock_Now ;;
  ret now.

(** [rand.Float64()]: [draw] is the number the global source yields at
    this call, a float in the interval from 0 (included) to 1 (excluded). *)
Definition rand_Float64 (draw : Q) : M Q :=
  emit Rand_Float64 ;;
  ret draw.

(** [x < y] on floats. *)
Definition float64_lt (x y : Q) : bool := negb (Qle_bool y x).

(** *** Internal methods *)

Definition setState (s : CircuitState) : M unit :=
  cur <- gets state ;;
  if negb (CircuitState_eqb cur s) then
    modify (set_state s) ;;
    emit (ReportState s)
  else ret tt.

Definition resetTimeoutElapsed : M bool :=
  cur <- gets state ;;
  if negb (CircuitState_eqb cur StateOpen) then ret false
  else
    lft <- gets lastFailureTime ;;
    rt <- gets resetTimeout ;;
    match lft, rt with
    | Some t, Some d =>
        now <- clock_Now ;;
        ret (d <=? time.Sub now t)
    | _, _ => ret false
    end.

(** *** Breaker implementation *)

Definition Trip : M unit :=
  setState StateHardOpen.

Definition Reset : M unit :=
  setState StateClosed ;;
  modify (set_resetTimeout None) ;;
  resetBackoff_Reset ;;
  tripCondition_Success.

Definition ShouldTry (draw : Q) : M bool :=
  cur <- gets state ;;
  if CircuitState_eqb cur StateHardOpen then ret false
  else
    trip <- tripCondition_ShouldTrip ;;
    if negb trip then
      setState StateClosed ;;
      ret true
    else
      cur <- gets state ;;
      when (CircuitState_eqb cur StateClosed) resetBackoff_Reset ;;
      cur <- gets state ;;
      when (negb (CircuitState_eqb cur StateOpen))
           (reset <- resetBackoff_NextInterval ;;
            modify (set_resetTimeout (Some reset))) ;;
      elapsed <- resetTimeoutElapsed ;;
      if elapsed then
        setState StateHalfClosed ;;
        r <- rand_Float64 draw ;;
        p <- gets halfClosedRetryProbability ;;
        ret (float64_lt r p)
      else
        setState StateOpen ;;
        ret false.

Definition MarkResult (err : result) : M bool :=
  failed <- match err with
            | None => ret false
            | Some e =>
                if is_ErrInvocationTimeout e then ret true
                else failureInterpreter_ShouldTrip e
            end ;;
  if failed then
    now <- clock_Now ;;
    modify (set_lastFailureTime (Some now)) ;;
    tripCondition_Failure ;;
    ret false
  else
    Reset ;;
    ret true.

(** One invocation of a [BreakerFunc], as the breaker sees it: the error
    it returns (or nil), how long it runs on the breaker's clock, and
    which ready case the [select] of [callWithTimeout] takes when the
    function and the timer finish together.  The function returns: with a
    bound, one that hangs is one that [takes] longer than the bound. *)
Record BreakerFunc : Type := {
  returns : result;
  takes : time.Duration;
  timerFirst : bool
}.

(** Time passing on the breaker's clock. *)
Definition elapse (d : time.Duration) : M unit :=
  modify (fun cb => set_clock (time.Add (clock cb) (Z.max 0 d)) cb).

Definition callWithTimeout (f : BreakerFunc) (timeout : time.Duration)
  : M result :=
  if timeout =? 0 then
    elapse (takes f) ;;
    ret (returns f)
  else if takes f <? timeout then
    elapse (takes f) ;;
    ret (returns f)
  else if timeout <? takes f then
    elapse timeout ;;
    ret (Some ErrInvocationTimeout)
  else
    elapse timeout ;;
    ret (if timerFirst f then Some ErrInvocationTimeout else returns f).

(** [err == ErrInvocationTimeout] for a possibly nil [err]. *)
Definition result_is_timeout (err : result) : bool :=
  match err with
  | Some e => is_ErrInvocationTimeout e
  | None => false
  end.

(** [time.Now()] in [Call] only measures the run for the collector; it is
    read off the same clock. *)
Definition Call (draw : Q) (f : BreakerFunc) : M result :=
  ok <- ShouldTry draw ;;
  if negb ok then
    emit (ReportCount EventTypeShortCircuit) ;;
    ret (Some ErrCircuitOpen)
  else
    start <- gets clock ;;
    timeout <- gets invocationTimeout ;;
    err <- callWithTimeout f timeout ;;
    stop <- gets clock ;;
    let elapsed := time.Sub stop start in
    emit (ReportDuration EventTypeRunDuration elapsed) ;;
    success <- MarkResult err ;;
    (if negb success then
       if result_is_timeout err then emit (ReportCount EventTypeTimeout)
       else emit (ReportCount EventTypeError)
     else
       match err with
       | Some _ => emit (ReportCount EventTypeBadRequest)
       | None => ret tt
       end) ;;
    ret err.

(** *** Construction *)

Definition BreakerConfigFunc : Type := circuitBreaker -> circuitBreaker.

Definition WithInvocationTimeout (timeout : time.Duration)
  : BreakerConfigFunc := set_invocationTimeout timeout.

Definition WithHalfClosedRetryProbability (probability : Q)
  : BreakerConfigFunc := set_halfClosedRetryProbability probability.

Definition WithResetBackoff (b : backoff.Backoff)
  : BreakerConfigFunc := set_resetBackoff b.

Definition WithFailureInterpreter (fi : FailureInterpreter.FailureInterpreter)
  : BreakerConfigFunc := set_failureInterpreter fi.

Definition WithTripCondition (tc : TripCondition.TripCondition)
  : BreakerConfigFunc := set_tripCondition tc.

Definition WithMaxConcurrency (n : Z)
  : BreakerConfigFunc := set_maxConcurrency n.

Definition WithMaxConcurrencyTimeout (timeout : time.Duration)
  : BreakerConfigFunc := set_maxConcurrencyTimeout timeout.

Definition withClock (now : time.Time)
  : BreakerConfigFunc := set_clock now.

(** The options a caller can pass: [circuitBreaker] is not exported, so
    every [BreakerConfigFunc] is one of the functions above
    ([WithCollector] replaces the sink the trace stands for and changes no
    field of the model). *)
Inductive is_option : BreakerConfigFunc -> Prop :=
| opt_InvocationTimeout d : is_option (WithInvocationTimeout d)
| opt_HalfClosedRetryProbability p : is_option (WithHalfClosedRetryProbability p)
| opt_ResetBackoff b : is_option (WithResetBackoff b)
| opt_FailureInterpreter fi : is_option (WithFailureInterpreter fi)
| opt_TripCondition tc : is_option (WithTripCondition tc)
| opt_MaxConcurrency n : is_option (WithMaxConcurrency n)
| opt_MaxConcurrencyTimeout d : is_option (WithMaxConcurrencyTimeout d)
| opt_clock now : is_option (withClock now).

(** The struct literal of [newCircuitBreaker]; instants are counted from
    the one the real clock shows at construction. *)
Definition defaults : circuitBreaker := {|
  invocationTimeout := 100 * time.Millisecond;
  halfClosedRetryProbability := 5 # 10;
  maxConcurrency := 100;
  maxConcurrencyTimeout := time.Millisecond * 100;
  resetBackoff := backoff.NewConstantBackoff (1000 * time.Millisecond);
  failureInterpreter := FailureInterpreter.NewAnyErrorFailureInterpreter;
  tripCondition := TripCondition.NewConsecutiveFailureTripCondition 5;
  clock := 0;
  state := StateZero;
  lastFailureTime := None;
  resetTimeout := None
|}.

Definition newCircuitBreaker (configs : list BreakerConfigFunc)
  : circuitBreaker * list Event :=
  let breaker := fold_left (fun cb config => config cb) configs defaults in
  let r :=
    (emit (ReportNew {| MaxConcurrency := maxConcurrency breaker |}) ;;
     setState StateClosed) breaker in
  (final r, trace r).

Definition NewCircuitBreaker (configs : list BreakerConfigFunc)
  : circuitBreaker := fst (newCircuitBreaker configs).

(** *** Runs of the breaker *)

(** The public operations, with what the environment supplies to each, and
    the passing of time between them. *)
Inductive Op : Type :=
| OpTrip
| OpReset
| OpShouldTry (draw : Q)
| OpMarkResult (err : result)
| OpCall (draw : Q) (f : BreakerFunc)
| OpAdvance (d : time.Duration).

Definition step (op : Op) : M unit :=
  match op with
  | OpTrip => Trip
  | OpReset => Reset
  | OpShouldTry draw => _ <- ShouldTry draw ;; ret tt
  | OpMarkResult err => _ <- MarkResult err ;; ret tt
  | OpCall draw f => _ <- Call draw f ;; ret tt
  | OpAdvance d => modify (fun cb => set_clock (time.Add (clock cb) d) cb)
  end.

Fixpoint run (ops : list Op) : M unit :=
  match ops with
  | [] => ret tt
  | op :: rest => step op ;; run rest
  end.

(** The breaker after a run. *)
Definition after (ops : list Op) (cb : circuitBreaker) : circuitBreaker :=
  final (run ops cb).


(* ===================================================================== *)
(** ** The earlier breaker of [breaker.go] *)
(* ===================================================================== *)

(** The variant kept in [breaker.go]: no hard-open state but a [hardTrip]
    flag, no mutex, the state recomputed by [state] at each question.  It
    reads [time.Now] and [rand.Float64] directly; the instant and the draw
    are arguments.  [state] dereferences [resetTimeout] without a nil
    check: a method that can do so returns an [option], [None] being the
    panic. *)
Module Legacy.

Inductive CircuitState : Type :=
| OpenState
| ClosedState
| HalfClosedState.

Definition CircuitState_eqb (a b : CircuitState) : bool :=
  match a, b with
  | OpenState, OpenState => true
  | ClosedState, ClosedState => true
  | HalfClosedState, HalfClosedState => true
  | _, _ => false
  end.

Definition CircuitOpenError : error := ErrCircuitOpen.
Definition InvocationTimeoutError : error := ErrInvocationTimeout.

(** The fields of [CircuitBreakerConfig] that the breaker reads, as it
    reads them and as the README lists them. *)
Record CircuitBreakerConfig : Type := {
  InvocationTimeout : time.Duration;
  ResetBackoff : backoff.Backoff;
  HalfClosedRetryProbability : Q;
  FailureInterpreter : FailureInterpreter.FailureInterpreter;
  TripCondition : TripCondition.TripCondition
}.

Record CircuitBreaker : Type := {
  config : CircuitBreakerConfig;
  hardTrip : bool;
  lastState : CircuitState;
  lastFailureTime : option time.Time;
  resetTimeout : option time.Duration
}.

Definition NewCircuitBreaker (c : CircuitBreakerConfig) : CircuitBreaker :=
  {| config := c; hardTrip := false; lastState := ClosedState;
     lastFailureTime := None; resetTimeout := None |}.

Definition set_ResetBackoff (b : backoff.Backoff) (c : CircuitBreakerConfig) :=
  {| InvocationTimeout := InvocationTimeout c; ResetBackoff := b;
     HalfClosedRetryProbability := HalfClosedRetryProbability c;
     FailureInterpreter := FailureInterpreter c;
     TripCondition := TripCondition c |}.

Definition set_TripCondition (t : TripCondition.TripCondition)
  (c : CircuitBreakerConfig) :=
  {| InvocationTimeout := InvocationTimeout c;
     ResetBackoff := ResetBackoff c;
     HalfClosedRetryProbability := HalfClosedRetryProbability c;
     FailureInterpreter := FailureInterpreter c;
     TripCondition := t |}.

Definition recordSuccess (cb : CircuitBreaker) : CircuitBreaker :=
  {| config :=
       set_TripCondition
         (TripCondition.success (TripCondition (config cb)))
         (set_ResetBackoff (backoff.reset (ResetBackoff (config cb)))
                           (config cb));
     hardTrip := false;
     lastState := lastState cb;
     lastFailureTime := None;
     resetTimeout := None |}.

Definition recordFailure (now : time.Time) (cb : CircuitBreaker)
  : CircuitBreaker :=
  {| config :=
       set_TripCondition
         (TripCondition.failure (TripCondition (config cb))) (config cb);
     hardTrip := hardTrip cb;
     lastState := lastState cb;
     lastFailureTime := Some now;
     resetTimeout := resetTimeout cb |}.

Definition updateBackoff (cb : CircuitBreaker) : CircuitBreaker :=
  let next := backoff.nextInterval (ResetBackoff (config cb)) in
  {| config := set_ResetBackoff (snd next) (config cb);
     hardTrip := hardTrip cb;
     lastState := lastState cb;
     lastFailureTime := lastFailureTime cb;
     resetTimeout := Some (fst next) |}.

Definition set_lastState (s : CircuitState) (cb : CircuitBreaker) :=
  {| config := config cb; hardTrip := hardTrip cb; lastState := s;
     lastFailureTime := lastFailureTime cb;
     resetTimeout := resetTimeout cb |}.

Definition set_hardTrip (b : bool) (cb : CircuitBreaker) :=
  {| config := config cb; hardTrip := b; lastState := lastState cb;
     lastFailureTime := lastFailureTime cb;
     resetTimeout := resetTimeout cb |}.

Definition Trip (now : time.Time) (cb : CircuitBreaker) : CircuitBreaker :=
  recordFailure now (set_hardTrip true cb).

Definition Reset (cb : CircuitBreaker) : CircuitBreaker :=
  recordSuccess cb.

Definition state (now : time.Time) (cb : CircuitBreaker)
  : option (CircuitState * CircuitBreaker) :=
  let answer := TripCondition.shouldTrip (TripCondition (config cb)) in
  let cb := {| config := set_TripCondition (snd answer) (config cb);
               hardTrip := hardTrip cb; lastState := lastState cb;
               lastFailureTime := lastFailureTime cb;
               resetTimeout := resetTimeout cb |} in
  if negb (fst answer) then Some (ClosedState, set_lastState ClosedState cb)
  else
    let cb :=
      if CircuitState_eqb (lastState cb) ClosedState then
        {| config := set_ResetBackoff
                       (backoff.reset (ResetBackoff (config cb))) (config cb);
           hardTrip := hardTrip cb; lastState := lastState cb;
           lastFailureTime := lastFailureTime cb;
           resetTimeout := resetTimeout cb |}
      else cb in
    let cb :=
      if negb (CircuitState_eqb (lastState cb) OpenState)
      then updateBackoff cb else cb in
    match lastFailureTime cb with
    | Some t =>
        match resetTimeout cb with
        | None => None
        | Some d =>
            if d <=? time.Sub now t
            then Some (HalfClosedState, set_lastState HalfClosedState cb)
            else Some (OpenState, set_lastState OpenState cb)
        end
    | None => Some (OpenState, set_lastState OpenState cb)
    end.

(** [state] is called once for the first test and, unless that test
    decides, once more for the second. *)
Definition shouldTry (now : time.Time) (draw : Q) (cb : CircuitBreaker)
  : option (bool * CircuitBreaker) :=
  if hardTrip cb then Some (false, cb)
  else
    match state now cb with
    | None => None
    | Some (s1, cb1) =>
        if CircuitState_eqb s1 OpenState then Some (false, cb1)
        else
          match state now cb1 with
          | None => None
          | Some (s2, cb2) =>
              if CircuitState_eqb s2 HalfClosedState then
                Some (Qle_bool draw
                        (HalfClosedRetryProbability (config cb2)), cb2)
              else Some (true, cb2)
          end
    end.

(** [callWithTimeout] without the clock of the later breaker: the
    function returns within the bound or the timer wins. *)
Definition callWithTimeout (f : BreakerFunc) (cb : CircuitBreaker) : result :=
  let timeout := InvocationTimeout (config cb) in
  if timeout =? 0 then returns f
  else if takes f <? timeout then returns f
  else if timeout <? takes f then Some InvocationTimeoutError
  else if timerFirst f then Some InvocationTimeoutError else returns f.

(** [now] is the instant at which the attempt is judged, [done] the one
    at which a failure is recorded. *)
Definition Call (now done : time.Time) (draw : Q) (f : BreakerFunc)
  (cb : CircuitBreaker) : option (result * CircuitBreaker) :=
  match shouldTry now draw cb with
  | None => None
  | Some (false, cb1) => Some (Some CircuitOpenError, cb1)
  | Some (true, cb1) =>
      match callWithTimeout f cb1 with
      | Some err =>
          if FailureInterpreter.shouldTrip
               (FailureInterpreter (config cb1)) err
          then Some (Some err, recordFailure done cb1)
          else Some (None, Reset cb1)
      | None => Some (None, Reset cb1)
      end
  end.

End Legacy.

(** *** Vocabulary of the properties *)

(** The test of [MarkResult] on a non-nil error:
    [err == ErrInvocationTimeout || cb.failureInterpreter.ShouldTrip(err)]. *)
Definition tripWorthy (cb : circuitBreaker) (e : error) : bool :=
  is_ErrInvocationTimeout e
  || FailureInterpreter.shouldTrip (failureInterpreter cb) e.

(** What the trip condition answers when it is asked now. *)
Definition wantsTrip (cb : circuitBreaker) : bool :=
  fst (TripCondition.shouldTrip (tripCondition cb)).

(** The breaker once [Reset] has run on it. *)
Definition afterReset (cb : circuitBreaker) : circuitBreaker :=
  set_tripCondition (TripCondition.success (tripCondition cb))
    (set_resetBackoff (backoff.reset (resetBackoff cb))
       (set_resetTimeout None (set_state StateClosed cb))).

(** The breaker once a failure has been recorded on it. *)
Definition afterFailure (cb : circuitBreaker) : circuitBreaker :=
  set_tripCondition (TripCondition.failure (tripCondition cb))
    (set_lastFailureTime (Some (clock cb)) cb).

(** The calls [MarkResult] makes on the interpreter for a non-nil error:
    none for the timeout sentinel, which the [||] decides on its own. *)
Definition interpreterCalls (e : error) : list Event :=
  if is_ErrInvocationTimeout e then [] else [FailureInterpreter_ShouldTrip e].

(** The outcome counter [Call] reports after [MarkResult]. *)
Definition outcomeCount (success : bool) (err : result) : list Event :=
  if negb success then
    if result_is_timeout err then [ReportCount EventTypeTimeout]
    else [ReportCount EventTypeError]
  else
    match err with
    | Some _ => [ReportCount EventTypeBadRequest]
    | None => []
    end.

(** Whether an operation, run on this breaker, calls [Reset]: [Reset]
    itself, [MarkResult] on its success path, and a [Call] that is
    admitted and whose [MarkResult] takes that path. *)
Definition callsReset (op : Op) (cb : circuitBreaker) : bool :=
  match op with
  | OpReset => true
  | OpMarkResult None => true
  | OpMarkResult (Some e) => negb (tripWorthy cb e)
  | OpCall draw f =>
      let r := ShouldTry draw cb in
      value r
      && match value (callWithTimeout f (invocationTimeout (final r))
                                      (final r)) with
         | None => true
         | Some e => negb (tripWorthy (final r) e)
         end
  | OpTrip | OpShouldTry _ | OpAdvance _ => false
  end.


(** Bookkeeping of the two optional fields. *)
Definition openHasTimeout (cb : circuitBreaker) : Prop :=
  state cb = StateOpen \/ state cb = StateHalfClosed ->
  resetTimeout cb <> None.

Definition timeoutHasFailure (cb : circuitBreaker) : Prop :=
  resetTimeout cb <> None -> lastFailureTime cb <> None.

(** The breaker runs a consecutive-failure condition of threshold [n]
    whose count is positive only once a failure has been timestamped. *)
Definition countedFailures (n : Z) (cb : circuitBreaker) : Prop :=
  exists c, tripCondition cb = TripCondition.consecutive c
            /\ TripCondition.threshold c = n
            /\ (1 <= TripCondition.count c -> lastFailureTime cb <> None)
            /\ timeoutHasFailure cb.

(** The readings of the specification that the code does not follow, in
    the specification's words. *)

(** "[markResult(nil)] always returns true and clears any prior failure
    bookkeeping ([lastFailureTime] becomes unset)", [resetTimeout]
    included. *)
Definition clearsBookkeeping (cb : circuitBreaker) : Prop :=
  let r := MarkResult None cb in
  value r = true
  /\ lastFailureTime (final r) = None
  /\ resetTimeout (final r) = None.

(** "If enough wall-clock time has elapsed since [lastFailureTime] to
    exceed [resetTimeout], transition to [HalfOpen] and allow the attempt
    only with probability [halfClosedRetryProbability]", for every call in
    which the trip condition says to trip and both fields are set. *)
Definition halfOpenWheneverDue (cb : circuitBreaker) (draw : Q) : Prop :=
  wantsTrip cb = true ->
  forall (t : time.Time) (d : time.Duration),
    lastFailureTime cb = Some t ->
    resetTimeout cb = Some d ->
    d <= time.Sub (clock cb) t ->
    let r := ShouldTry draw cb in
    state (final r) = StateHalfClosed
    /\ value r = float64_lt draw (halfClosedRetryProbability cb).

(** "[lastFailureTime] and [resetTimeout] are either both unset or both
    set". *)
Definition paired (cb : circuitBreaker) : Prop :=
  (lastFailureTime cb = None /\ resetTimeout cb = None)
  \/ (lastFailureTime cb <> None /\ resetTimeout cb <> None).

(** A sample breaker and sample errors for the concrete runs. *)
Definition boom : error := Errorf "boom".
Definition badRequest : error := Errorf "bad request".

Definition sampleBreaker : circuitBreaker :=
  NewCircuitBreaker [WithHalfClosedRetryProbability 1].

Definition fiveFailures : list Op :=
  [OpMarkResult (Some boom); OpMarkResult (Some boom);
   OpMarkResult (Some boom); OpMarkResult (Some boom);
   OpMarkResult (Some boom)].

(** An interpreter that sets client-side errors aside, in the manner of
    the server-error interpreter of the README. *)
Definition serverErrors : FailureInterpreter.FailureInterpreter :=
  FailureInterpreter.ofPredicate
    (fun e => match e with
              | Errorf msg => negb (String.eqb msg "bad request")
              | _ => true
              end).

(** A function that returns its error at once. *)
Definition failsWith (e : error) : BreakerFunc :=
  {| returns := Some e; takes := 5 * time.Millisecond; timerFirst := false |}.

(** The sample breaker, tripped by five failures, seen open by one
    [ShouldTry], one second later. *)
Definition openAndDue (p : Q) : circuitBreaker :=
  after (fiveFailures ++ [OpShouldTry 0; OpAdvance (1000 * time.Millisecond)])
        (NewCircuitBreaker [WithHalfClosedRetryProbability p]).

(** A fresh default breaker after one call of a failing function. *)
Definition oneFailure : circuitBreaker :=
  after [OpCall 0 (failsWith boom)] (NewCircuitBreaker []).

(** The sample breaker (retry probability 1) tripped by five failures, five
    seconds later, before any [ShouldTry] has seen the trip. *)
Definition freshTrip : circuitBreaker :=
  after (fiveFailures ++ [OpAdvance (5000 * time.Millisecond)]) sampleBreaker.

(** The sample breaker while a probe is out: tripped, seen open, and moved
    to half-open by a [ShouldTry] one second later. *)
Definition probing : circuitBreaker :=
  after [OpShouldTry 0] (openAndDue 1).

(** A configuration of the earlier breaker: trip at the first failure,
    wait one second, never retry while half-closed. *)
Definition legacyConfig : Legacy.CircuitBreakerConfig :=
  {| Legacy.InvocationTimeout := 100 * time.Millisecond;
     Legacy.ResetBackoff := backoff.NewConstantBackoff (1000 * time.Millisecond);
     Legacy.HalfClosedRetryProbability := 0;
     Legacy.FailureInterpreter := serverErrors;
     Legacy.TripCondition := TripCondition.NewConsecutiveFailureTripCondition 1 |}.

(** A breaker with a doubling backoff (one to eight seconds) that never
    probes, after a trip and one fruitless half-open round: the generator
    has moved on to four seconds. *)
Definition grownBackoff : circuitBreaker :=
  after (fiveFailures
         ++ [OpShouldTry 0; OpAdvance (1000 * time.Millisecond);
             OpShouldTry 0; OpShouldTry 0])
        (NewCircuitBreaker
           [WithResetBackoff
              (backoff.NewExponentialBackoff (1000 * time.Millisecond)
                                             (8000 * time.Millisecond));
            WithHalfClosedRetryProbability 0]).

(** An interpreter for which no error counts. *)
Definition neverTrip : FailureInterpreter.FailureInterpreter :=
  FailureInterpreter.ofPredicate (fun _ => false).

(** *** Vocabulary of the further properties *)

(** The calls [ShouldTry] can make: on the trip condition, the backoff
    generator, the clock and the random source, and the report of a state
    change. *)
Definition admissionEvent (e : Event) : bool :=
  match e with
  | TripCondition_ShouldTrip | Backoff_Reset | Backoff_NextInterval
  | Clock_Now | Rand_Float64 | ReportState _ => true
  | _ => false
  end.


(** The fields set at construction agree. *)
Definition sameConfig (cb cb' : circuitBreaker) : Prop :=
  invocationTimeout cb' = invocationTimeout cb
  /\ halfClosedRetryProbability cb' = halfClosedRetryProbability cb
  /\ maxConcurrency cb' = maxConcurrency cb
  /\ maxConcurrencyTimeout cb' = maxConcurrencyTimeout cb
  /\ failureInterpreter cb' = failureInterpreter cb.

(** The options applied in order, as the loop of [newCircuitBreaker]
    does. *)
Definition configure (configs : list BreakerConfigFunc) (cb : circuitBreaker) : circuitBreaker :=
  fold_left (fun cb config => config cb) configs cb.

(** [k] failures in a row, each marked with [MarkResult]. *)
Definition failures (k : nat) (e : error) : list Op := repeat (OpMarkResult (Some e)) k.

(** The public methods of the earlier breaker, with the instants and the
    draw each one reads, and sequential runs of them; [None] is the
    panic. *)
Inductive LegacyOp : Type :=
| LegacyCall (now done : time.Time) (draw : Q) (f : BreakerFunc)
| LegacyTrip (now : time.Time)
| LegacyReset.

Definition legacyStep (op : LegacyOp) (cb : Legacy.CircuitBreaker)
  : option Legacy.CircuitBreaker :=
  match op with
  | LegacyCall now done draw f =>
      match Legacy.Call now done draw f cb with
      | Some (_, cb') => Some cb'
      | None => None
      end
  | LegacyTrip now => Some (Legacy.Trip now cb)
  | LegacyReset => Some (Legacy.Reset cb)
  end.

Fixpoint legacyRun (ops : list LegacyOp) (cb : Legacy.CircuitBreaker)
  : option Legacy.CircuitBreaker :=
  match ops with
  | [] => Some cb
  | op :: rest =>
      match legacyStep op cb with
      | Some cb' => legacyRun rest cb'
      | None => None
      end
  end.

(** What the trip condition of the earlier breaker answers when asked
    now. *)
Definition legacyWantsTrip (cb : Legacy.CircuitBreaker) : bool :=
  fst (TripCondition.shouldTrip (Legacy.TripCondition (Legacy.config cb))).

(** No nil dereference lies ahead: either the breaker is hard-tripped
    (and [state] is not called), or an open breaker with a failure on
    record has its timeout. *)
Definition legacySafe (cb : Legacy.CircuitBreaker) : Prop :=
  Legacy.hardTrip cb = true
  \/ (Legacy.lastState cb = Legacy.OpenState ->
      Legacy.lastFailureTime cb <> None ->
      Legacy.resetTimeout cb <> None).

(** Sample functions: one that succeeds at once, one that outlasts the
    default bound of 100 ms. *)
Definition succeeds : BreakerFunc :=
  {| returns := None; takes := 5 * time.Millisecond; timerFirst := false |}.

Definition slow : BreakerFunc :=
  {| returns := None; takes := 500 * time.Millisecond; timerFirst := false |}.

(** The sample breaker, open and due, whose trip condition has been
    replaced by one that no longer wants the breaker tripped. *)
Definition conditionCleared : circuitBreaker :=
  set_tripCondition (TripCondition.NewConsecutiveFailureTripCondition 5)
                    (openAndDue 1).

(** The sample breaker, tripped and seen open, half a second later. *)
Definition waiting : circuitBreaker :=
  after (fiveFailures ++ [OpShouldTry 0; OpAdvance (500 * time.Millisecond)])
        sampleBreaker.

(** A breaker with a doubling backoff, half-closed after its first wait of
    one second. *)
Definition halfClosedDoubling : circuitBreaker :=
  after (fiveFailures
         ++ [OpShouldTry 0; OpAdvance (1000 * time.Millisecond);
             OpShouldTry 0])
        (NewCircuitBreaker
           [WithResetBackoff
              (backoff.NewExponentialBackoff (1000 * time.Millisecond)
                                             (8000 * time.Millisecond));
            WithHalfClosedRetryProbability 0]).

(** Earlier breakers for the concrete runs: one whose record would make
    [state] panic, one that has seen a failing call, one with an
    interpreter that sets every error aside, one with a doubling
    backoff. *)
Definition legacyStuck : Legacy.CircuitBreaker :=
  {| Legacy.config :=
       Legacy.set_TripCondition
         (TripCondition.consecutive
            {| TripCondition.count := 1; TripCondition.threshold := 1 |})
         legacyConfig;
     Legacy.hardTrip := false;
     Legacy.lastState := Legacy.OpenState;
     Legacy.lastFailureTime := Some 0;
     Legacy.resetTimeout := None |}.

Definition legacyAfterFailure : Legacy.CircuitBreaker :=
  match Legacy.Call 0 7 0 (failsWith boom)
                    (Legacy.NewCircuitBreaker legacyConfig) with
  | Some (_, cb) => cb
  | None => Legacy.NewCircuitBreaker legacyConfig
  end.

Definition legacyProbing : Legacy.CircuitBreaker :=
  match Legacy.shouldTry (2000 * time.Millisecond) 0 legacyAfterFailure with
  | Some (_, cb) => cb
  | None => legacyAfterFailure
  end.

Definition legacyLenient : Legacy.CircuitBreakerConfig :=
  {| Legacy.InvocationTimeout := 100 * time.Millisecond;
     Legacy.ResetBackoff := backoff.NewConstantBackoff (1000 * time.Millisecond);
     Legacy.HalfClosedRetryProbability := 0;
     Legacy.FailureInterpreter := neverTrip;
     Legacy.TripCondition := TripCondition.NewConsecutiveFailureTripCondition 1 |}.

Definition legacyAdmitted : Legacy.CircuitBreaker :=
  match Legacy.shouldTry 0 0 (Legacy.NewCircuitBreaker legacyLenient) with
  | Some (_, cb) => cb
  | None => Legacy.NewCircuitBreaker legacyLenient
  end.

Definition legacyDoubling : Legacy.CircuitBreaker :=
  match Legacy.Call 0 0 0 (failsWith boom)
          (Legacy.NewCircuitBreaker
             {| Legacy.InvocationTimeout := 100 * time.Millisecond;
                Legacy.ResetBackoff :=
                  backoff.NewExponentialBackoff (1000 * time.Millisecond)
                                                (8000 * time.Millisecond);
                Legacy.HalfClosedRetryProbability := 0;
                Legacy.FailureInterpreter :=
                  FailureInterpreter.NewAnyErrorFailureInterpreter;
                Legacy.TripCondition :=
                  TripCondition.NewConsecutiveFailureTripCondition 1 |}) with
  | Some (_, cb) => cb
  | None => Legacy.NewCircuitBreaker legacyLenient
  end.

(* ===================================================================== *)
(** ** Proof support *)
(* ===================================================================== *)

Arguments time.Sub : simpl never.
Arguments backoff.nextInterval : simpl never.
Arguments backoff.reset : simpl never.
Arguments TripCondition.shouldTrip : simpl never.
Arguments TripCondition.success : simpl never.
Arguments TripCondition.failure : simpl never.
Arguments FailureInterpreter.shouldTrip : simpl never.
Arguments Trip : simpl never.
Arguments Reset : simpl never.
Arguments ShouldTry : simpl never.
Arguments MarkResult : simpl never.
Arguments callWithTimeout : simpl never.
Arguments Call : simpl never.

Ltac unfold_breaker :=
  unfold Call, MarkResult, ShouldTry, Reset, Trip, callWithTimeout, elapse,
    resetTimeoutElapsed, setState, tripCondition_ShouldTrip,
    tripCondition_Success, tripCondition_Failure, resetBackoff_Reset,
    resetBackoff_NextInterval, failureInterpreter_ShouldTrip, clock_Now,
    rand_Float64, when, gets, modify, emit, value, final, trace in *.

(** Split on the next test the code makes. *)
Ltac split_test :=
  match goal with
  | |- context [if ?b then _ else _] => destruct b eqn:?
  | |- context [match ?o with Some _ => _ | None => _ end] => destruct o eqn:?
  end.

Ltac run_breaker := unfold_breaker; cbn in *; repeat (split_test; cbn in *).

Lemma float64_lt_spec (x y : Q) : float64_lt x y = true <-> (x < y)%Q.
Proof.
  unfold float64_lt. rewrite negb_true_iff.
  destruct (Qle_bool y x) eqn:E.
  - apply Qle_bool_iff in E. split; [discriminate | intros H].
    exfalso. exact (Qlt_not_le _ _ H E).
  - split; [intros _ | reflexivity].
    apply Qnot_le_lt. intros H. apply Qle_bool_iff in H. congruence.
Qed.

(** [Reset] in closed form. *)
Lemma Reset_final (cb : circuitBreaker) : final (Reset cb) = afterReset cb.
Proof.
  destruct cb as [? ? ? ? ? ? ? ? st ? ?]. unfold afterReset.
  destruct st; reflexivity.
Qed.

Lemma Reset_calls (cb : circuitBreaker) :
  exists t, trace (Reset cb) = t ++ [Backoff_Reset; TripCondition_Success].
Proof.
  destruct cb as [? ? ? ? ? ? ? ? st ? ?].
  destruct st; unfold_breaker; cbn; eexists;
    (exact (eq_refl ([ReportState StateClosed] ++ _)) || exact (eq_refl ([] ++ _))).
Qed.

(** [MarkResult] in closed form, branch by branch. *)
Lemma MarkResult_failure (cb : circuitBreaker) (e : error) :
  tripWorthy cb e = true ->
  MarkResult (Some e) cb
  = (false, afterFailure cb,
     interpreterCalls e ++ [Clock_Now; TripCondition_Failure]).
Proof.
  unfold tripWorthy, interpreterCalls, afterFailure. intros H.
  destruct cb as [? ? ? ? ? ? ? ? st ? ?].
  unfold MarkResult. cbn in *.
  destruct (is_ErrInvocationTimeout e); cbn in *.
  - reflexivity.
  - unfold failureInterpreter_ShouldTrip, gets. cbn. rewrite H. reflexivity.
Qed.

Lemma MarkResult_ignored (cb : circuitBreaker) (e : error) :
  tripWorthy cb e = false ->
  MarkResult (Some e) cb
  = (true, afterReset cb, FailureInterpreter_ShouldTrip e :: trace (Reset cb)).
Proof.
  unfold tripWorthy. intros H. apply orb_false_iff in H. destruct H as [H1 H2].
  rewrite <- Reset_final.
  destruct cb as [? ? ? ? ? ? ? ? st ? ?].
  unfold MarkResult. cbn in *. rewrite H1.
  unfold failureInterpreter_ShouldTrip, gets. cbn. rewrite H2.
  destruct st; reflexivity.
Qed.

Lemma MarkResult_nil (cb : circuitBreaker) :
  MarkResult None cb = (true, afterReset cb, trace (Reset cb)).
Proof.
  rewrite <- Reset_final.
  destruct cb as [? ? ? ? ? ? ? ? st ? ?].
  destruct st; reflexivity.
Qed.

Lemma is_ErrInvocationTimeout_eq (e : error) :
  is_ErrInvocationTimeout e = true <-> e = ErrInvocationTimeout.
Proof.
  destruct e; cbn; split; intros H; try reflexivity; discriminate H.
Qed.

Lemma tripWorthy_iff (cb : circuitBreaker) (e : error) :
  tripWorthy cb e = true <->
  e = ErrInvocationTimeout
  \/ FailureInterpreter.shouldTrip (failureInterpreter cb) e = true.
Proof.
  unfold tripWorthy. rewrite orb_true_iff, is_ErrInvocationTimeout_eq.
  reflexivity.
Qed.

(** What [ShouldTry] never touches. *)
Lemma ShouldTry_frame (cb : circuitBreaker) (draw : Q) :
  let cb' := final (ShouldTry draw cb) in
  invocationTimeout cb' = invocationTimeout cb
  /\ halfClosedRetryProbability cb' = halfClosedRetryProbability cb
  /\ failureInterpreter cb' = failureInterpreter cb
  /\ clock cb' = clock cb
  /\ lastFailureTime cb' = lastFailureTime cb.
Proof.
  destruct cb as [? ? ? ? ? ? ? ? st ? ?].
  destruct st; run_breaker; repeat split.
Qed.

(** [Call] when the attempt is admitted and the function returns, within
    the bound, an error that is not trip-worthy. *)
Lemma Call_ignored (cb : circuitBreaker) (draw : Q) (f : BreakerFunc)
  (e : error) :
  value (ShouldTry draw cb) = true ->
  returns f = Some e ->
  invocationTimeout cb = 0 \/ takes f < invocationTimeout cb ->
  tripWorthy cb e = false ->
  let c := Call draw f cb in
  value c = Some e
  /\ final c
     = afterReset (set_clock (time.Add (clock cb) (Z.max 0 (takes f)))
                             (final (ShouldTry draw cb)))
  /\ In (ReportCount EventTypeBadRequest) (trace c).
Proof.
  intros Hok Hret Hin Hno.
  pose proof (ShouldTry_frame cb draw) as (Hto & _ & Hfi & Hclk & _).
  cbn zeta. unfold Call. cbn.
  destruct (ShouldTry draw cb) as [[ok cb1] t1].
  unfold value, final in *. cbn in *. subst ok. cbn.
  unfold gets. cbn.
  assert (Hcw : callWithTimeout f (invocationTimeout cb1) cb1
                = (Some e,
                   set_clock (time.Add (clock cb1) (Z.max 0 (takes f))) cb1,
                   [])).
  { unfold callWithTimeout, elapse, modify. rewrite Hto.
    destruct Hin as [Hz | Hlt].
    - rewrite Hz. cbn. rewrite Hret. reflexivity.
    - destruct (invocationTimeout cb =? 0); cbn.
      + rewrite Hret. reflexivity.
      + apply Z.ltb_lt in Hlt. rewrite Hlt. cbn. rewrite Hret. reflexivity. }
  rewrite Hcw.
  set (cb2 := set_clock _ cb1).
  assert (Hno2 : tripWorthy cb2 e = false).
  { unfold tripWorthy in *. subst cb2. cbn. rewrite Hfi. exact Hno. }
  rewrite (MarkResult_ignored cb2 e Hno2). cbn. subst cb2. rewrite Hclk.
  repeat split.
  apply in_or_app. right. right. right.
  apply in_or_app. right. left. reflexivity.
Qed.

(** The consecutive-failure condition and the two generators, method by
    method. *)
Lemma shouldTrip_consecutive (c : TripCondition.consecutiveFailureTripCondition) :
  TripCondition.shouldTrip (TripCondition.consecutive c)
  = (TripCondition.threshold c <=? TripCondition.count c,
     TripCondition.consecutive c).
Proof. destruct c; reflexivity. Qed.

Lemma success_consecutive (c : TripCondition.consecutiveFailureTripCondition) :
  TripCondition.success (TripCondition.consecutive c)
  = TripCondition.consecutive
      {| TripCondition.count := 0;
         TripCondition.threshold := TripCondition.threshold c |}.
Proof. reflexivity. Qed.

Lemma failure_consecutive (c : TripCondition.consecutiveFailureTripCondition) :
  TripCondition.failure (TripCondition.consecutive c)
  = TripCondition.consecutive
      {| TripCondition.count := TripCondition.count c + 1;
         TripCondition.threshold := TripCondition.threshold c |}.
Proof. reflexivity. Qed.

Lemma base_constant (d : time.Duration) :
  backoff.base (backoff.NewConstantBackoff d) = d.
Proof. reflexivity. Qed.

Lemma base_exponential (b : backoff.exponentialBackoff) :
  backoff.base (backoff.Pack backoff.exponentialBackoff_Methods b)
  = backoff.minInterval b.
Proof. reflexivity. Qed.

Lemma base_exponential_next (b : backoff.exponentialBackoff) :
  backoff.base
    (snd (backoff.nextInterval
            (backoff.Pack backoff.exponentialBackoff_Methods b)))
  = backoff.minInterval b.
Proof. reflexivity. Qed.


(** [callWithTimeout] returns an error or nil and moves the clock. *)
Lemma callWithTimeout_shape (f : BreakerFunc) (timeout : time.Duration)
  (cb : circuitBreaker) :
  exists err now, callWithTimeout f timeout cb = (err, set_clock now cb, []).
Proof.
  unfold callWithTimeout, elapse, modify.
  repeat split_test; cbn; eexists; eexists; reflexivity.
Qed.

(** [Call] as the composition of its three stages. *)
Lemma Call_stages (cb : circuitBreaker) (draw : Q) (f : BreakerFunc) :
  Call draw f cb
  = let r1 := ShouldTry draw cb in
    if value r1 then
      let r2 := callWithTimeout f (invocationTimeout (final r1)) (final r1) in
      let r3 := MarkResult (value r2) (final r2) in
      (value r2, final r3,
       trace r1
       ++ ReportDuration EventTypeRunDuration
            (time.Sub (clock (final r2)) (clock (final r1)))
          :: trace r3 ++ outcomeCount (value r3) (value r2))
    else
      (Some ErrCircuitOpen, final r1,
       trace r1 ++ [ReportCount EventTypeShortCircuit]).
Proof.
  unfold Call. cbn.
  destruct (ShouldTry draw cb) as [[ok cb1] t1]. destruct ok; cbn.
  - unfold gets. cbn.
    destruct (callWithTimeout_shape f (invocationTimeout cb1) cb1)
      as (err & now & ->).
    cbn.
    destruct (MarkResult err (set_clock now cb1)) as [[ok cb3] t3].
    unfold outcomeCount.
    destruct ok; cbn; [ destruct err | destruct (result_is_timeout err) ];
      cbn; rewrite ?app_nil_r; reflexivity.
  - reflexivity.
Qed.

Lemma Call_final (cb : circuitBreaker) (draw : Q) (f : BreakerFunc) :
  final (Call draw f cb) = final (ShouldTry draw cb)
  \/ exists err now,
      final (Call draw f cb)
      = final (MarkResult err (set_clock now (final (ShouldTry draw cb)))).
Proof.
  rewrite Call_stages. cbn zeta.
  destruct (value (ShouldTry draw cb)).
  - right.
    destruct (callWithTimeout_shape f
                (invocationTimeout (final (ShouldTry draw cb)))
                (final (ShouldTry draw cb))) as (err & now & ->).
    exists err, now. reflexivity.
  - left. reflexivity.
Qed.

(** Runs, one operation after the other. *)
Lemma after_cons (op : Op) (ops : list Op) (cb : circuitBreaker) :
  after (op :: ops) cb = after ops (final (step op cb)).
Proof.
  unfold after. cbn. destruct (step op cb) as [[u cb1] t1]. cbn.
  destruct (run ops cb1) as [[u2 cb2] t2]. reflexivity.
Qed.

Lemma after_invariant (P : circuitBreaker -> Prop) :
  (forall op cb, P cb -> P (final (step op cb))) ->
  forall ops cb, P cb -> P (after ops cb).
Proof.
  intros Hstep ops. induction ops as [ | op ops IH ]; intros cb H.
  - exact H.
  - rewrite after_cons. apply IH, Hstep, H.
Qed.

Lemma step_final (op : Op) (cb : circuitBreaker) :
  final (step op cb)
  = match op with
    | OpTrip => final (Trip cb)
    | OpReset => final (Reset cb)
    | OpShouldTry draw => final (ShouldTry draw cb)
    | OpMarkResult err => final (MarkResult err cb)
    | OpCall draw f => final (Call draw f cb)
    | OpAdvance d => set_clock (time.Add (clock cb) d) cb
    end.
Proof.
  destruct op as [ | | draw | err | draw f | d ]; cbn; try reflexivity.
  - destruct (ShouldTry draw cb) as [[ok cb1] t1]. reflexivity.
  - destruct (MarkResult err cb) as [[ok cb1] t1]. reflexivity.
  - destruct (Call draw f cb) as [[ok cb1] t1]. reflexivity.
Qed.

Lemma Trip_state (cb : circuitBreaker) :
  state (final (Trip cb)) = StateHardOpen.
Proof.
  destruct cb as [? ? ? ? ? ? ? ? st ? ?]. destruct st; reflexivity.
Qed.



(** The states that wait for a timeout have one. *)
Lemma openHasTimeout_ShouldTry (cb : circuitBreaker) (draw : Q) :
  openHasTimeout cb -> openHasTimeout (final (ShouldTry draw cb)).
Proof.
  unfold openHasTimeout.
  destruct cb as [? ? ? ? ? ? ? ? st ? ?].
  destruct st; run_breaker; intros H; intros; try discriminate;
    try (apply H; auto); intuition discriminate.
Qed.

Lemma openHasTimeout_MarkResult (cb : circuitBreaker) (err : result) :
  openHasTimeout cb -> openHasTimeout (final (MarkResult err cb)).
Proof.
  unfold openHasTimeout. intros H.
  destruct err as [e|].
  - destruct (tripWorthy cb e) eqn:E.
    + rewrite (MarkResult_failure cb e E). exact H.
    + rewrite (MarkResult_ignored cb e E). cbn. intuition discriminate.
  - rewrite MarkResult_nil. cbn. intuition discriminate.
Qed.

Lemma openHasTimeout_step (op : Op) (cb : circuitBreaker) :
  openHasTimeout cb -> openHasTimeout (final (step op cb)).
Proof.
  intros H. rewrite step_final.
  destruct op as [ | | draw | err | draw f | d ].
  - unfold openHasTimeout. rewrite Trip_state. intuition discriminate.
  - rewrite Reset_final. unfold openHasTimeout. cbn. intuition discriminate.
  - apply openHasTimeout_ShouldTry, H.
  - apply openHasTimeout_MarkResult, H.
  - destruct (Call_final cb draw f) as [-> | (err & now & ->)].
    + apply openHasTimeout_ShouldTry, H.
    + apply openHasTimeout_MarkResult.
      exact (openHasTimeout_ShouldTry draw H).
  - exact H.
Qed.

(** With the consecutive-failure condition, a timeout is drawn only after
    a failure has been timestamped. *)
Lemma countedFailures_ShouldTry (n : Z) (cb : circuitBreaker) (draw : Q) :
  1 <= n ->
  countedFailures n cb -> countedFailures n (final (ShouldTry draw cb)).
Proof.
  unfold countedFailures, timeoutHasFailure.
  intros Hn (c & Htc & Hth & Hc & Hrt).
  destruct cb as [? ? ? ? ? ? tc ? st lft rt]. cbn in *. subst tc.
  exists c.
  destruct st; unfold_breaker; cbn; rewrite ?shouldTrip_consecutive; cbn;
    repeat (split_test; cbn); repeat split; auto;
    intros _; apply Hc;
    match goal with
    | H : negb (_ <=? _) = false |- _ =>
        apply negb_false_iff, Z.leb_le in H; lia
    end.
Qed.

Lemma countedFailures_MarkResult (n : Z) (cb : circuitBreaker)
  (err : result) :
  countedFailures n cb -> countedFailures n (final (MarkResult err cb)).
Proof.
  intros (c & Htc & Hth & Hc & Hrt).
  assert (Hreset : countedFailures n (afterReset cb)).
  { unfold countedFailures, timeoutHasFailure, afterReset. cbn.
    rewrite Htc, success_consecutive.
    eexists. repeat split; cbn; [assumption | lia | congruence]. }
  destruct err as [e|].
  - destruct (tripWorthy cb e) eqn:E.
    + rewrite (MarkResult_failure cb e E).
      unfold countedFailures, timeoutHasFailure, afterFailure. cbn.
      rewrite Htc, failure_consecutive.
      eexists. repeat split; cbn; [assumption | discriminate | discriminate ].
    + rewrite (MarkResult_ignored cb e E). exact Hreset.
  - rewrite MarkResult_nil. exact Hreset.
Qed.

Lemma countedFailures_step (n : Z) (op : Op) (cb : circuitBreaker) :
  1 <= n ->
  countedFailures n cb -> countedFailures n (final (step op cb)).
Proof.
  intros Hn H. rewrite step_final.
  destruct op as [ | | draw | err | draw f | d ].
  - unfold countedFailures, timeoutHasFailure in *.
    destruct cb as [? ? ? ? ? ? ? ? st ? ?].
    destruct st; exact H.
  - pose proof (countedFailures_MarkResult None H) as H'.
    rewrite MarkResult_nil in H'. rewrite Reset_final. exact H'.
  - apply countedFailures_ShouldTry; assumption.
  - apply countedFailures_MarkResult, H.
  - destruct (Call_final cb draw f) as [-> | (err & now & ->)].
    + apply countedFailures_ShouldTry; assumption.
    + apply countedFailures_MarkResult.
      exact (countedFailures_ShouldTry draw Hn H).
  - exact H.
Qed.

(** The options leave the state and the two optional fields alone, so a
    new breaker is closed with both fields unset. *)
Lemma options_keep_bookkeeping (configs : list BreakerConfigFunc)
  (cb : circuitBreaker) :
  Forall is_option configs ->
  let cb' := fold_left (fun cb config => config cb) configs cb in
  state cb' = state cb
  /\ lastFailureTime cb' = lastFailureTime cb
  /\ resetTimeout cb' = resetTimeout cb.
Proof.
  intros H. revert cb. induction H as [ | config configs Hc _ IH ]; intros cb.
  - repeat split.
  - cbn. destruct (IH (config cb)) as (-> & -> & ->).
    destruct Hc; repeat split.
Qed.

Lemma NewCircuitBreaker_bookkeeping (configs : list BreakerConfigFunc) :
  Forall is_option configs ->
  let cb := NewCircuitBreaker configs in
  state cb = StateClosed
  /\ lastFailureTime cb = None
  /\ resetTimeout cb = None.
Proof.
  intros H. destruct (options_keep_bookkeeping defaults H) as (Hs & Hl & Hr).
  unfold NewCircuitBreaker, newCircuitBreaker. cbn in *.
  match type of Hs with
  | state ?x = _ => destruct x as [? ? ? ? ? ? ? ? st ? ?]
  end.
  cbn in *. subst. repeat split.
Qed.

(** [callsReset] says what it is meant to say: [Reset] is the only code
    that tells the trip condition of a success, and an operation calls
    [Reset] exactly when that call shows in its trace. *)
Lemma ShouldTry_no_Success (cb : circuitBreaker) (draw : Q) :
  ~ In TripCondition_Success (trace (ShouldTry draw cb)).
Proof.
  destruct cb as [? ? ? ? ? ? ? ? st ? ?].
  destruct st; run_breaker; intuition discriminate.
Qed.

Lemma MarkResult_Success (cb : circuitBreaker) (err : result) :
  In TripCondition_Success (trace (MarkResult err cb))
  <-> match err with
      | None => True
      | Some e => tripWorthy cb e = false
      end.
Proof.
  destruct (Reset_calls cb) as [t Ht].
  destruct err as [e|].
  - destruct (tripWorthy cb e) eqn:E.
    + rewrite (MarkResult_failure cb e E). unfold interpreterCalls. cbn.
      destruct (is_ErrInvocationTimeout e); cbn; intuition discriminate.
    + rewrite (MarkResult_ignored cb e E). cbn. rewrite Ht.
      split; [reflexivity | intros _]. right. apply in_or_app. right.
      cbn. auto.
  - rewrite MarkResult_nil. cbn. rewrite Ht. split; [trivial | intros _].
    apply in_or_app. right. cbn. auto.
Qed.

Lemma outcomeCount_no_Success (success : bool) (err : result) :
  ~ In TripCondition_Success (outcomeCount success err).
Proof.
  unfold outcomeCount.
  destruct success, err as [e|]; cbn;
    try destruct (is_ErrInvocationTimeout e); cbn; intuition discriminate.
Qed.

Lemma callsReset_spec (op : Op) (cb : circuitBreaker) :
  callsReset op cb = true <-> In TripCondition_Success (trace (step op cb)).
Proof.
  destruct op as [ | | draw | err | draw f | d ]; cbn.
  - destruct cb as [? ? ? ? ? ? ? ? st ? ?].
    destruct st; unfold_breaker; cbn; intuition discriminate.
  - destruct (Reset_calls cb) as [t ->]. split; [intros _ | reflexivity].
    apply in_or_app. right. cbn. auto.
  - pose proof (@ShouldTry_no_Success cb draw) as H.
    destruct (ShouldTry draw cb) as [[ok cb1] t1]. cbn in *.
    rewrite app_nil_r.
    split; [discriminate | intros H'; elim (H H')].
  - pose proof (@MarkResult_Success cb err) as H.
    destruct (MarkResult err cb) as [[ok cb1] t1]. cbn in *.
    rewrite app_nil_r, H.
    destruct err as [e|]; [ rewrite negb_true_iff | ]; tauto.
  - rewrite Call_stages.
    pose proof (@ShouldTry_no_Success cb draw) as H.
    destruct (ShouldTry draw cb) as [[ok cb1] t1]. cbn in H. cbn.
    destruct ok; cbn.
    + destruct (callWithTimeout_shape f (invocationTimeout cb1) cb1)
        as (err & now & ->).
      cbn.
      pose proof (@MarkResult_Success (set_clock now cb1) err) as HM.
      pose proof (outcomeCount_no_Success
                    (value (MarkResult err (set_clock now cb1))) err) as HO.
      rewrite app_nil_r, in_app_iff. cbn. rewrite in_app_iff.
      assert (Htw : forall e, tripWorthy (set_clock now cb1) e
                              = tripWorthy cb1 e) by reflexivity.
      destruct err as [e|]; [ rewrite Htw in HM; rewrite negb_true_iff | ];
        intuition discriminate.
    + rewrite app_nil_r, in_app_iff. cbn. intuition discriminate.
  - intuition discriminate.
Qed.

(** The earlier breaker differs from the later one on three points the
    properties below touch: [recordSuccess] does unset [lastFailureTime];
    the half-closed test is [<=], so that a draw of 0 passes even with
    probability 0, and it is made at the first question after a trip;
    [Call] returns nil for an error the interpreter sets aside. *)
Lemma Legacy_recordSuccess_clears (cb : Legacy.CircuitBreaker) :
  Legacy.lastFailureTime (Legacy.recordSuccess cb) = None
  /\ Legacy.resetTimeout (Legacy.recordSuccess cb) = None.
Proof. split; reflexivity. Qed.

Lemma Legacy_shouldTry_draw_zero :
  exists cb cb' out,
    Legacy.Call 0 0 0 (failsWith boom) (Legacy.NewCircuitBreaker legacyConfig)
    = Some (out, cb)
    /\ Legacy.HalfClosedRetryProbability (Legacy.config cb) = 0%Q
    /\ Legacy.shouldTry (2000 * time.Millisecond) 0 cb = Some (true, cb')
    /\ Legacy.lastState cb' = Legacy.HalfClosedState.
Proof.
  do 3 eexists. split; [ vm_compute; reflexivity | ].
  split; [ reflexivity | split; [ vm_compute; reflexivity | reflexivity ] ].
Qed.

Lemma Legacy_Call_swallows_ignored_error :
  exists cb,
    Legacy.Call 0 0 0 (failsWith badRequest)
                (Legacy.NewCircuitBreaker legacyConfig)
    = Some (None, cb).
Proof.
  eexists. vm_compute. reflexivity.
Qed.

(* ===================================================================== *)
(** ** Properties *)
(* ===================================================================== *)

(** C10. In state [StateHardOpen], [ShouldTry] returns false with an empty
    trace (neither the trip condition, nor the backoff generator, nor the
    random source, nor anything else is called) and the breaker it leaves
    is the breaker it found, field for field, whatever the draw would have
    been. *)
Theorem ShouldTry_HardOpen_frame (cb : circuitBreaker) (draw : Q) :
  state cb = StateHardOpen ->
  ShouldTry draw cb = (false, cb, []).
Proof.
  intros H. unfold ShouldTry, gets. cbn. rewrite H. reflexivity.
Qed.

Lemma ShouldTry_HardOpen_frame_witness :
  ShouldTry (1 # 3) (final (Trip sampleBreaker))
  = (false, final (Trip sampleBreaker), []).
Proof.
  apply ShouldTry_HardOpen_frame. reflexivity.
Defined.

(** C9. For a non-nil error that is the timeout sentinel or that the
    interpreter classifies as trip-worthy, [MarkResult] returns false and
    changes two things only, [lastFailureTime] and the trip condition
    (told of a failure): the [state] field, [resetTimeout] and the backoff
    generator are as before and no state change is reported.  Whatever
    the error, [MarkResult] never moves the breaker into [StateOpen]: if
    the state is [StateOpen] after it, it was before. *)
Theorem MarkResult_failure_keeps_state (cb : circuitBreaker) (e : error) :
  tripWorthy cb e = true ->
  let r := MarkResult (Some e) cb in
  value r = false
  /\ final r = afterFailure cb
  /\ state (final r) = state cb
  /\ resetTimeout (final r) = resetTimeout cb
  /\ resetBackoff (final r) = resetBackoff cb
  /\ (forall s, ~ In (ReportState s) (trace r))
  /\ (forall err, state (final (MarkResult err cb)) = StateOpen ->
                  state cb = StateOpen).
Proof.
  intros H r. subst r. rewrite (MarkResult_failure cb e H).
  repeat split.
  - intros s. unfold trace, interpreterCalls. cbn.
    destruct (is_ErrInvocationTimeout e); cbn; intuition discriminate.
  - intros [e'|].
    + destruct (tripWorthy cb e') eqn:E.
      * rewrite (MarkResult_failure cb e' E). cbn. trivial.
      * rewrite (MarkResult_ignored cb e' E). cbn. discriminate.
    + rewrite MarkResult_nil. cbn. discriminate.
Qed.

Lemma MarkResult_failure_keeps_state_witness :
  let r := MarkResult (Some boom) sampleBreaker in
  value r = false /\ state (final r) = StateClosed
  /\ lastFailureTime (final r) = Some 0.
Proof.
  destruct (MarkResult_failure_keeps_state sampleBreaker boom eq_refl)
    as (Hv & Hf & Hs & _).
  cbn zeta. rewrite Hv, Hf. repeat split.
Defined.

(** C5. For a non-nil error, [MarkResult] returns false exactly when the
    error is the timeout sentinel or the interpreter classifies it as
    trip-worthy.  When it returns false it has recorded a failure:
    [lastFailureTime] is the instant the clock shows and the trip condition
    was told of a failure.  When it returns true it has recorded none.
    The timeout sentinel is a failure under every interpreter, the
    interpreter is not even asked. *)
Theorem MarkResult_error_classification (cb : circuitBreaker) (e : error) :
  let r := MarkResult (Some e) cb in
  (value r = false <->
     e = ErrInvocationTimeout
     \/ FailureInterpreter.shouldTrip (failureInterpreter cb) e = true)
  /\ (value r = false ->
      lastFailureTime (final r) = Some (clock cb)
      /\ tripCondition (final r) = TripCondition.failure (tripCondition cb)
      /\ trace r = interpreterCalls e ++ [Clock_Now; TripCondition_Failure])
  /\ (value r = true ->
      lastFailureTime (final r) = lastFailureTime cb
      /\ ~ In TripCondition_Failure (trace r)
      /\ ~ In Clock_Now (trace r))
  /\ (let t := MarkResult (Some ErrInvocationTimeout) cb in
      value t = false
      /\ lastFailureTime (final t) = Some (clock cb)
      /\ trace t = [Clock_Now; TripCondition_Failure]).
Proof.
  intros r. subst r. rewrite <- tripWorthy_iff.
  split; [ | split; [ | split ] ].
  - destruct (tripWorthy cb e) eqn:E.
    + rewrite (MarkResult_failure cb e E). cbn. tauto.
    + rewrite (MarkResult_ignored cb e E). cbn. split; discriminate.
  - destruct (tripWorthy cb e) eqn:E.
    + rewrite (MarkResult_failure cb e E). cbn. auto.
    + rewrite (MarkResult_ignored cb e E). cbn. discriminate.
  - destruct (tripWorthy cb e) eqn:E.
    + rewrite (MarkResult_failure cb e E). cbn. discriminate.
    + rewrite (MarkResult_ignored cb e E). intros _.
      split; [reflexivity | ].
      destruct cb as [? ? ? ? ? ? ? ? st ? ?].
      destruct st; unfold_breaker; cbn; intuition discriminate.
  - cbn zeta. rewrite (MarkResult_failure cb ErrInvocationTimeout eq_refl).
    cbn. auto.
Qed.

Lemma MarkResult_error_classification_witness :
  let cb := set_failureInterpreter neverTrip sampleBreaker in
  value (MarkResult (Some boom) cb) = true
  /\ value (MarkResult (Some ErrInvocationTimeout) cb) = false.
Proof.
  cbn zeta.
  pose proof (MarkResult_error_classification
                (set_failureInterpreter neverTrip sampleBreaker) boom)
    as (_ & _ & _ & Ht & _).
  split; [reflexivity | exact Ht].
Defined.

(** C6. For a non-nil error that is neither the timeout sentinel nor
    trip-worthy for the interpreter, [MarkResult] does what [Reset] does,
    not nothing: the state is [StateClosed], [resetTimeout] is cleared, the
    backoff generator is back at its starting point (its next interval is
    the base interval), the trip condition is told of a success, and the
    result is true.  [Call], when it admits the attempt and the function
    returns such an error within the bound, hands that very error back to
    the caller and leaves the breaker reset. *)
Theorem ignored_error_resets_and_passes_through (cb : circuitBreaker)
  (e : error) :
  tripWorthy cb e = false ->
  (let r := MarkResult (Some e) cb in
   value r = true
   /\ final r = final (Reset cb)
   /\ state (final r) = StateClosed
   /\ resetTimeout (final r) = None
   /\ resetBackoff (final r) = backoff.reset (resetBackoff cb)
   /\ fst (backoff.nextInterval (resetBackoff (final r)))
      = backoff.base (resetBackoff cb)
   /\ tripCondition (final r) = TripCondition.success (tripCondition cb)
   /\ exists t, trace r = FailureInterpreter_ShouldTrip e :: t
                          ++ [Backoff_Reset; TripCondition_Success])
  /\ (forall (draw : Q) (f : BreakerFunc),
        value (ShouldTry draw cb) = true ->
        returns f = Some e ->
        invocationTimeout cb = 0 \/ takes f < invocationTimeout cb ->
        let c := Call draw f cb in
        value c = Some e
        /\ state (final c) = StateClosed
        /\ resetTimeout (final c) = None
        /\ In (ReportCount EventTypeBadRequest) (trace c)).
Proof.
  intros H. split.
  - cbn zeta. rewrite (MarkResult_ignored cb e H), Reset_final.
    repeat split.
    destruct (Reset_calls cb) as [t Ht]. exists t. cbn. now rewrite Ht.
  - intros draw f Hok Hret Hin.
    destruct (Call_ignored cb draw f Hok Hret Hin H) as (Hv & Hf & Ht).
    cbn zeta. rewrite Hf. repeat split; assumption.
Qed.

Lemma ignored_error_resets_and_passes_through_witness :
  let cb := after [OpMarkResult (Some boom); OpMarkResult (Some boom)]
                  (NewCircuitBreaker [WithFailureInterpreter serverErrors]) in
  wantsTrip (after [OpMarkResult (Some boom); OpMarkResult (Some boom);
                    OpMarkResult (Some boom)] cb) = true
  /\ wantsTrip (after [OpMarkResult (Some badRequest);
                       OpMarkResult (Some boom); OpMarkResult (Some boom);
                       OpMarkResult (Some boom)] cb) = false
  /\ value (MarkResult (Some badRequest) cb) = true
  /\ value (Call 0 (failsWith badRequest) cb) = Some badRequest.
Proof.
  cbn zeta.
  set (cb := after _ (NewCircuitBreaker [WithFailureInterpreter serverErrors])).
  assert (Hno : tripWorthy cb badRequest = false) by reflexivity.
  destruct (ignored_error_resets_and_passes_through cb badRequest Hno)
    as ((Hv & _) & HC).
  destruct (HC 0%Q (failsWith badRequest) eq_refl eq_refl
               (or_intror eq_refl)) as (Hc & _).
  repeat split; assumption.
Defined.

(** C7. With a consecutive-failure trip condition of threshold at least
    one (five by default), right after [Reset] a [ShouldTry] returns true
    and leaves the breaker closed; the backoff generator [Reset] leaves
    behind yields its base interval next, and that [ShouldTry] does not
    consume it. *)
Theorem Reset_then_ShouldTry (cb : circuitBreaker)
  (c : TripCondition.consecutiveFailureTripCondition) (draw : Q) :
  tripCondition cb = TripCondition.consecutive c ->
  1 <= TripCondition.threshold c ->
  let cb1 := final (Reset cb) in
  let r := ShouldTry draw cb1 in
  value r = true
  /\ state (final r) = StateClosed
  /\ resetBackoff cb1 = backoff.reset (resetBackoff cb)
  /\ fst (backoff.nextInterval (resetBackoff cb1))
     = backoff.base (resetBackoff cb)
  /\ resetBackoff (final r) = resetBackoff cb1.
Proof.
  intros Htc Hth. cbn zeta. rewrite Reset_final.
  destruct cb as [? ? ? ? ? ? tc ? st ? ?]. cbn in Htc. subst tc.
  unfold afterReset. cbn. rewrite success_consecutive.
  unfold_breaker. cbn. rewrite shouldTrip_consecutive. cbn.
  destruct (TripCondition.threshold c <=? 0) eqn:E;
    [ apply Z.leb_le in E; lia | ].
  cbn. repeat split.
Qed.

Lemma Reset_then_ShouldTry_witness :
  state grownBackoff = StateOpen
  /\ value (ShouldTry 0 grownBackoff) = false
  /\ fst (backoff.nextInterval (resetBackoff grownBackoff))
     = 4000 * time.Millisecond
  /\ value (ShouldTry 0 (final (Reset grownBackoff))) = true
  /\ fst (backoff.nextInterval (resetBackoff (final (Reset grownBackoff))))
     = 1000 * time.Millisecond.
Proof.
  destruct (@Reset_then_ShouldTry grownBackoff
              {| TripCondition.count := 5; TripCondition.threshold := 5 |}
              0%Q eq_refl ltac:(cbn; lia)) as (Hv & _ & _ & Hb & _).
  split; [reflexivity | split; [reflexivity | split; [reflexivity | ]]].
  split; [exact Hv | rewrite Hb; reflexivity].
Defined.

(** C8. In the half-open branch, reached when the state is [StateOpen],
    the trip condition wants the breaker tripped and the time since
    [lastFailureTime] is at least [resetTimeout], the breaker becomes
    [StateHalfClosed] and [ShouldTry] answers whether the draw is below
    [halfClosedRetryProbability]: with probability 0 the answer is false
    for every draw (a draw is never negative), with probability 1 it is
    true for every draw below 1. *)
Theorem half_open_probability_extremes (cb : circuitBreaker) (draw : Q)
  (t : time.Time) (d : time.Duration) :
  state cb = StateOpen ->
  wantsTrip cb = true ->
  lastFailureTime cb = Some t ->
  resetTimeout cb = Some d ->
  d <= time.Sub (clock cb) t ->
  let r := ShouldTry draw cb in
  state (final r) = StateHalfClosed
  /\ value r = float64_lt draw (halfClosedRetryProbability cb)
  /\ In Rand_Float64 (trace r)
  /\ (halfClosedRetryProbability cb == 0 -> 0 <= draw -> value r = false)%Q
  /\ (halfClosedRetryProbability cb == 1 -> draw < 1 -> value r = true)%Q.
Proof.
  intros Hst Htrip Hl Hr Hel.
  destruct cb as [? p ? ? ? ? tc clk st lft rt].
  unfold wantsTrip in Htrip. cbn in *. subst st lft rt.
  apply Z.leb_le in Hel.
  unfold_breaker. cbn. rewrite Htrip. cbn. rewrite Hel. cbn.
  split; [reflexivity | split; [reflexivity | split; [ auto | split ] ] ].
  - intros Hp Hd. apply not_true_is_false. rewrite float64_lt_spec, Hp.
    apply Qle_not_lt. exact Hd.
  - intros Hp Hd. rewrite float64_lt_spec, Hp. exact Hd.
Qed.

Lemma half_open_probability_extremes_witness :
  value (ShouldTry 0 (openAndDue 0)) = false
  /\ value (ShouldTry (999 # 1000) (openAndDue 1)) = true.
Proof.
  split.
  - destruct (@half_open_probability_extremes (openAndDue 0) 0%Q 0
                (1000 * time.Millisecond) eq_refl eq_refl eq_refl eq_refl
                ltac:(vm_compute; discriminate)) as (_ & _ & _ & H0 & _).
    apply H0; [reflexivity | apply Qle_refl].
  - destruct (@half_open_probability_extremes (openAndDue 1) (999 # 1000)%Q 0
                (1000 * time.Millisecond) eq_refl eq_refl eq_refl eq_refl
                ltac:(vm_compute; discriminate)) as (_ & _ & _ & _ & H1).
    apply H1; [reflexivity | reflexivity].
Defined.



(** C3, as the specification words it, fails: after one call of a failing
    function [lastFailureTime] is set, and [MarkResult] of nil leaves it
    set. *)
Lemma MarkResult_nil_keeps_lastFailureTime :
  lastFailureTime oneFailure = Some (5 * time.Millisecond)
  /\ lastFailureTime (final (MarkResult None oneFailure))
     = Some (5 * time.Millisecond)
  /\ ~ clearsBookkeeping oneFailure.
Proof.
  split; [reflexivity | split; [reflexivity | ]].
  intros (_ & H & _). discriminate H.
Qed.

(** C3, amended. For every breaker, [MarkResult] of nil returns true and
    does what [Reset] does: the state is [StateClosed], [resetTimeout] is
    unset, the backoff generator is reset and the trip condition is told
    of a success.  [lastFailureTime] keeps the value it had; with
    [resetTimeout] unset it cannot make the reset timeout elapse. *)
Theorem MarkResult_nil_resets (cb : circuitBreaker) :
  let r := MarkResult None cb in
  value r = true
  /\ final r = final (Reset cb)
  /\ state (final r) = StateClosed
  /\ resetTimeout (final r) = None
  /\ lastFailureTime (final r) = lastFailureTime cb
  /\ resetBackoff (final r) = backoff.reset (resetBackoff cb)
  /\ tripCondition (final r) = TripCondition.success (tripCondition cb)
  /\ resetTimeoutElapsed (final r) = (false, final r, []).
Proof.
  cbn zeta. rewrite MarkResult_nil, Reset_final.
  repeat split.
Qed.

(** C4, as the specification words it, fails: after one call of a failing
    function [lastFailureTime] is set and [resetTimeout] is not. *)
Lemma bookkeeping_not_paired :
  lastFailureTime oneFailure = Some (5 * time.Millisecond)
  /\ resetTimeout oneFailure = None
  /\ ~ paired oneFailure.
Proof.
  split; [reflexivity | split; [reflexivity | ]].
  intros [[H _] | [_ H]]; [discriminate H | apply H; reflexivity].
Qed.

(** C4, amended. In every state reachable from a new breaker by the
    public operations and the passing of time: when the state is
    [StateOpen] or [StateHalfClosed], [resetTimeout] is set; and when the
    trip condition is a fresh consecutive-failure condition of threshold
    at least one (the default), [resetTimeout] is set only if
    [lastFailureTime] is.  (Nothing is claimed the other way round:
    [lastFailureTime] is set by a recorded failure alone.) *)
Theorem reachable_bookkeeping (configs : list BreakerConfigFunc)
  (ops : list Op) :
  Forall is_option configs ->
  let cb := after ops (NewCircuitBreaker configs) in
  (state cb = StateOpen \/ state cb = StateHalfClosed ->
   resetTimeout cb <> None)
  /\ (forall n,
        1 <= n ->
        tripCondition (NewCircuitBreaker configs)
        = TripCondition.NewConsecutiveFailureTripCondition n ->
        resetTimeout cb <> None -> lastFailureTime cb <> None).
Proof.
  intros Hopt. destruct (NewCircuitBreaker_bookkeeping Hopt) as (Hs & Hl & Hr).
  cbn zeta. split.
  - apply (after_invariant openHasTimeout openHasTimeout_step).
    unfold openHasTimeout. rewrite Hs. intuition discriminate.
  - intros n Hn Htc.
    assert (H : countedFailures n (after ops (NewCircuitBreaker configs))).
    { apply (after_invariant (countedFailures n)).
      - intros op cb. apply countedFailures_step, Hn.
      - exists {| TripCondition.count := 0; TripCondition.threshold := n |}.
        unfold timeoutHasFailure. rewrite Hr.
        repeat split; cbn; [exact Htc | lia | congruence]. }
    destruct H as (c & _ & _ & _ & H). exact H.
Qed.

Lemma reachable_bookkeeping_witness :
  let cb := after (fiveFailures ++ [OpShouldTry 0])
                  (NewCircuitBreaker [WithHalfClosedRetryProbability 1]) in
  state cb = StateOpen
  /\ resetTimeout cb <> None
  /\ lastFailureTime cb <> None.
Proof.
  cbn zeta.
  destruct (@reachable_bookkeeping [WithHalfClosedRetryProbability 1]
              (fiveFailures ++ [OpShouldTry 0])
              (Forall_cons _ (opt_HalfClosedRetryProbability 1)
                           (Forall_nil _))) as (H1 & H2).
  split; [reflexivity | split].
  - apply H1. left. reflexivity.
  - apply (H2 5); [lia | reflexivity | ]. apply H1. left. reflexivity.
Defined.

(** C2, as the specification words it, fails.  While a probe is out
    (state [StateHalfClosed]) the trip condition says to trip, both fields
    are set and the timeout has elapsed, yet [ShouldTry] moves to
    [StateOpen] and disallows although the draw is below the retry
    probability.  At the first [ShouldTry] after a fresh trip (state
    [StateClosed]), five seconds after the last failure and with a timeout
    of one second drawn in that very call, it does the same. *)
Lemma not_half_open_unless_open :
  (state probing = StateHalfClosed
   /\ wantsTrip probing = true
   /\ lastFailureTime probing = Some 0
   /\ resetTimeout probing = Some (1000 * time.Millisecond)
   /\ 1000 * time.Millisecond <= time.Sub (clock probing) 0
   /\ float64_lt 0 (halfClosedRetryProbability probing) = true
   /\ value (ShouldTry 0 probing) = false
   /\ state (final (ShouldTry 0 probing)) = StateOpen
   /\ ~ halfOpenWheneverDue probing 0)
  /\ (state freshTrip = StateClosed
      /\ wantsTrip freshTrip = true
      /\ lastFailureTime freshTrip = Some 0
      /\ resetTimeout (final (ShouldTry 0 freshTrip))
         = Some (1000 * time.Millisecond)
      /\ 1000 * time.Millisecond <= time.Sub (clock freshTrip) 0
      /\ value (ShouldTry 0 freshTrip) = false
      /\ state (final (ShouldTry 0 freshTrip)) = StateOpen).
Proof.
  split.
  - repeat (split; [ first [reflexivity | vm_compute; discriminate] | ]).
    intros H.
    destruct (H eq_refl 0 (1000 * time.Millisecond) eq_refl eq_refl
                ltac:(vm_compute; discriminate)) as (Hs & _).
    discriminate Hs.
  - repeat (split; [ first [reflexivity | vm_compute; discriminate] | ]).
    reflexivity.
Qed.

(** C2, amended. When the trip condition says to trip, what [ShouldTry]
    does depends on the state it finds.  In [StateOpen], with both fields
    set and the time since [lastFailureTime] at least [resetTimeout], it
    moves to [StateHalfClosed] and allows the attempt exactly when the draw
    is below [halfClosedRetryProbability].  In any other state than
    [StateOpen] and [StateHardOpen], the first [ShouldTry] after a fresh
    trip included, it draws a new [resetTimeout], moves to [StateOpen] and
    disallows, without reading the clock or drawing a number. *)
Theorem ShouldTry_when_tripped (cb : circuitBreaker) (draw : Q) :
  wantsTrip cb = true ->
  let r := ShouldTry draw cb in
  (state cb = StateOpen ->
   forall (t : time.Time) (d : time.Duration),
     lastFailureTime cb = Some t ->
     resetTimeout cb = Some d ->
     d <= time.Sub (clock cb) t ->
     state (final r) = StateHalfClosed
     /\ value r = float64_lt draw (halfClosedRetryProbability cb)
     /\ resetTimeout (final r) = Some d)
  /\ (state cb <> StateOpen ->
      state cb <> StateHardOpen ->
      state (final r) = StateOpen
      /\ value r = false
      /\ resetTimeout (final r) <> None
      /\ (state cb = StateClosed ->
          resetTimeout (final r) = Some (backoff.base (resetBackoff cb)))
      /\ ~ In Clock_Now (trace r)
      /\ ~ In Rand_Float64 (trace r)).
Proof.
  intros Htrip. cbn zeta.
  destruct cb as [? p ? ? b ? tc clk st lft rt].
  unfold wantsTrip in Htrip. cbn in *.
  split.
  - intros Hst t d Hl Hr Hel. subst st lft rt.
    apply Z.leb_le in Hel.
    unfold_breaker. cbn. rewrite Htrip. cbn. rewrite Hel. cbn.
    repeat split.
  - intros Hopen Hhard.
    destruct st; try congruence;
      unfold_breaker; cbn; rewrite Htrip; cbn;
      repeat split;
      first [ discriminate | reflexivity | intuition discriminate ].
Qed.

Lemma ShouldTry_when_tripped_witness :
  (state (final (ShouldTry (1 # 2) (openAndDue 1))) = StateHalfClosed
   /\ value (ShouldTry (1 # 2) (openAndDue 1)) = true)
  /\ (state (final (ShouldTry (1 # 2) freshTrip)) = StateOpen
      /\ value (ShouldTry (1 # 2) freshTrip) = false).
Proof.
  split.
  - destruct (@ShouldTry_when_tripped (openAndDue 1) (1 # 2)%Q eq_refl)
      as (H & _).
    destruct (H eq_refl 0 (1000 * time.Millisecond) eq_refl eq_refl
                ltac:(vm_compute; discriminate)) as (Hs & Hv & _).
    split; [exact Hs | rewrite Hv; reflexivity].
  - destruct (@ShouldTry_when_tripped freshTrip (1 # 2)%Q eq_refl)
      as (_ & H).
    destruct (H ltac:(discriminate) ltac:(discriminate)) as (Hs & Hv & _).
    split; [exact Hs | exact Hv].
Defined.

(* ===================================================================== *)
(** ** Further properties of the two breakers *)
(* ===================================================================== *)

(** [ShouldTry] calls nobody else. *)
Lemma ShouldTry_events (cb : circuitBreaker) (draw : Q) :
  forallb admissionEvent (trace (ShouldTry draw cb)) = true.
Proof.
  destruct cb as [? ? ? ? ? ? ? ? st ? ?].
  destruct st; run_breaker; reflexivity.
Qed.

Lemma forallb_not_In (p : Event -> bool) (t : list Event) (e : Event) :
  forallb p t = true -> p e = false -> ~ In e t.
Proof.
  intros H He Hin. rewrite forallb_forall in H. rewrite (H e Hin) in He. discriminate.
Qed.

(** X1. When [ShouldTry] refuses, [Call] returns [ErrCircuitOpen] and
    reports a short circuit; the function is not run and no result is
    marked: the breaker is as [ShouldTry] left it, the clock and
    [lastFailureTime] are untouched, and neither the interpreter nor
    [Failure] or [Success] of the trip condition is called. *)
Theorem Call_short_circuit (cb : circuitBreaker) (draw : Q) (f : BreakerFunc) :
  value (ShouldTry draw cb) = false ->
  let s := ShouldTry draw cb in
  let c := Call draw f cb in
  value c = Some ErrCircuitOpen
  /\ final c = final s
  /\ trace c = trace s ++ [ReportCount EventTypeShortCircuit]
  /\ clock (final c) = clock cb
  /\ lastFailureTime (final c) = lastFailureTime cb
  /\ ~ In TripCondition_Failure (trace c)
  /\ ~ In TripCondition_Success (trace c)
  /\ (forall e, ~ In (FailureInterpreter_ShouldTrip e) (trace c)).
Proof.
  intros H. cbn zeta. rewrite Call_stages. cbn zeta. rewrite H.
  pose proof (ShouldTry_frame cb draw) as (_ & _ & _ & Hclk & Hlft).
  pose proof (ShouldTry_events cb draw) as Hev.
  assert (Hno : forall e, admissionEvent e = false ->
            e <> ReportCount EventTypeShortCircuit ->
            ~ In e (trace (ShouldTry draw cb) ++ [ReportCount EventTypeShortCircuit])).
  { intros e He Hne Hin. apply in_app_or in Hin. destruct Hin as [Hin | [Heq | []]].
    - exact (forallb_not_In _ _ _ Hev He Hin).
    - apply Hne. symmetry. exact Heq. }
  cbn. repeat split; try assumption; try (apply Hno; [reflexivity | discriminate]).
  intros e. apply Hno; [reflexivity | discriminate].
Qed.

Lemma Call_short_circuit_witness :
  value (Call 0 (failsWith boom) freshTrip) = Some ErrCircuitOpen
  /\ clock (final (Call 0 (failsWith boom) freshTrip)) = clock freshTrip.
Proof.
  destruct (@Call_short_circuit freshTrip 0%Q (failsWith boom) eq_refl)
    as (Hv & _ & _ & Hc & _).
  split; assumption.
Defined.

(** [callWithTimeout], within the bound and beyond it. *)
Lemma callWithTimeout_in_time (f : BreakerFunc) (cb : circuitBreaker) :
  invocationTimeout cb = 0 \/ takes f < invocationTimeout cb ->
  callWithTimeout f (invocationTimeout cb) cb
  = (returns f, set_clock (time.Add (clock cb) (Z.max 0 (takes f))) cb, []).
Proof.
  unfold callWithTimeout, elapse, modify. intros [Hz | Hlt].
  - rewrite Hz. reflexivity.
  - destruct (invocationTimeout cb =? 0); [reflexivity | ].
    apply Z.ltb_lt in Hlt. rewrite Hlt. reflexivity.
Qed.

Lemma callWithTimeout_late (f : BreakerFunc) (cb : circuitBreaker) :
  invocationTimeout cb <> 0 ->
  invocationTimeout cb < takes f ->
  callWithTimeout f (invocationTimeout cb) cb
  = (Some ErrInvocationTimeout,
     set_clock (time.Add (clock cb) (Z.max 0 (invocationTimeout cb))) cb, []).
Proof.
  unfold callWithTimeout, elapse, modify. intros Hz Hlt.
  apply Z.eqb_neq in Hz. rewrite Hz.
  destruct (takes f <? invocationTimeout cb) eqn:E; [apply Z.ltb_lt in E; lia | ].
  apply Z.ltb_lt in Hlt. rewrite Hlt. reflexivity.
Qed.

(** X2. An admitted [Call] whose function outlasts a positive
    [invocationTimeout] returns [ErrInvocationTimeout] once the bound has
    passed, records a failure at that instant without asking the
    interpreter, leaves the state field as [ShouldTry] set it and counts a
    timeout. *)
Theorem Call_timeout (cb : circuitBreaker) (draw : Q) (f : BreakerFunc) :
  value (ShouldTry draw cb) = true ->
  0 < invocationTimeout cb ->
  invocationTimeout cb < takes f ->
  let s := ShouldTry draw cb in
  let c := Call draw f cb in
  let now := time.Add (clock cb) (invocationTimeout cb) in
  value c = Some ErrInvocationTimeout
  /\ final c = afterFailure (set_clock now (final s))
  /\ lastFailureTime (final c) = Some now
  /\ state (final c) = state (final s)
  /\ trace c = trace s
               ++ [ReportDuration EventTypeRunDuration (time.Sub now (clock cb));
                   Clock_Now; TripCondition_Failure;
                   ReportCount EventTypeTimeout].
Proof.
  intros Hok Hpos Hlate. cbn zeta. rewrite Call_stages. cbn zeta.
  pose proof (ShouldTry_frame cb draw) as (Hto & _ & _ & Hclk & _).
  destruct (ShouldTry draw cb) as [[ok s] t1].
  unfold value, final, trace in *. cbn [fst snd] in *. subst ok.
  rewrite (@callWithTimeout_late f s) by (rewrite Hto; lia).
  cbn [fst snd].
  rewrite (MarkResult_failure _ ErrInvocationTimeout eq_refl).
  rewrite Hto, Z.max_r by lia.
  cbn. rewrite Hclk. repeat split.
Qed.

Lemma Call_timeout_witness :
  let cb := set_failureInterpreter neverTrip sampleBreaker in
  value (Call 0 slow cb) = Some ErrInvocationTimeout
  /\ lastFailureTime (final (Call 0 slow cb)) = Some (100 * time.Millisecond).
Proof.
  cbn zeta.
  destruct (@Call_timeout (set_failureInterpreter neverTrip sampleBreaker)
              0%Q slow eq_refl eq_refl eq_refl) as (Hv & _ & Hl & _).
  split; [exact Hv | exact Hl].
Defined.

(** X3. An admitted [Call] whose function returns nil within the bound
    (or with no bound) returns nil and leaves the breaker reset: closed,
    [resetTimeout] unset.  It reports the duration and no outcome
    counter. *)
Theorem Call_success (cb : circuitBreaker) (draw : Q) (f : BreakerFunc) :
  value (ShouldTry draw cb) = true ->
  returns f = None ->
  invocationTimeout cb = 0 \/ takes f < invocationTimeout cb ->
  let s := ShouldTry draw cb in
  let c := Call draw f cb in
  let now := time.Add (clock cb) (Z.max 0 (takes f)) in
  value c = None
  /\ final c = afterReset (set_clock now (final s))
  /\ state (final c) = StateClosed
  /\ resetTimeout (final c) = None
  /\ trace c = trace s
               ++ ReportDuration EventTypeRunDuration (time.Sub now (clock cb))
                  :: trace (Reset (set_clock now (final s)))
  /\ (forall e, ~ In (ReportCount e) (trace c)).
Proof.
  intros Hok Hret Hin. cbn zeta. rewrite Call_stages. cbn zeta.
  pose proof (ShouldTry_frame cb draw) as (Hto & _ & _ & Hclk & _).
  pose proof (ShouldTry_events cb draw) as Hev.
  destruct (ShouldTry draw cb) as [[ok s] t1].
  unfold value, final, trace in *. cbn [fst snd] in *. subst ok.
  rewrite (@callWithTimeout_in_time f s) by (rewrite Hto; exact Hin).
  cbn [fst snd]. rewrite Hret, MarkResult_nil. cbn [fst snd].
  rewrite Hclk. unfold outcomeCount. cbn [negb]. rewrite app_nil_r.
  repeat split.
  intros e Hin'. apply in_app_or in Hin'. destruct Hin' as [Hin' | [Heq | Hin']].
  - exact (forallb_not_In _ _ _ Hev (eq_refl : admissionEvent (ReportCount e) = false) Hin').
  - discriminate Heq.
  - destruct (Reset_calls (set_clock (time.Add (clock cb) (Z.max 0 (takes f))) s)) as [t Ht].
    revert Hin'. generalize (set_clock (time.Add (clock cb) (Z.max 0 (takes f))) s).
    intros [? ? ? ? ? ? ? ? st ? ?]. destruct st; unfold_breaker; cbn; intuition discriminate.
Qed.

Lemma Call_success_witness :
  value (Call 0 succeeds (openAndDue 1)) = None
  /\ state (final (Call 0 succeeds (openAndDue 1))) = StateClosed.
Proof.
  destruct (@Call_success (openAndDue 1) 0%Q succeeds eq_refl eq_refl
              (or_intror eq_refl)) as (Hv & _ & Hs & _).
  split; assumption.
Defined.

(** X4. An admitted [Call] whose function returns a trip-worthy error
    within the bound returns that error and records a failure at the
    instant the function returned; state and [resetTimeout] stay as
    [ShouldTry] left them.  The outcome counted is an error, or a timeout
    when the function itself returned the timeout sentinel. *)
Theorem Call_failure (cb : circuitBreaker) (draw : Q) (f : BreakerFunc) (e : error) :
  value (ShouldTry draw cb) = true ->
  returns f = Some e ->
  invocationTimeout cb = 0 \/ takes f < invocationTimeout cb ->
  tripWorthy cb e = true ->
  let s := ShouldTry draw cb in
  let c := Call draw f cb in
  let now := time.Add (clock cb) (Z.max 0 (takes f)) in
  value c = Some e
  /\ final c = afterFailure (set_clock now (final s))
  /\ lastFailureTime (final c) = Some now
  /\ state (final c) = state (final s)
  /\ resetTimeout (final c) = resetTimeout (final s)
  /\ trace c = trace s
               ++ ReportDuration EventTypeRunDuration (time.Sub now (clock cb))
                  :: interpreterCalls e
                  ++ [Clock_Now; TripCondition_Failure;
                      ReportCount (if is_ErrInvocationTimeout e
                                   then EventTypeTimeout else EventTypeError)].
Proof.
  intros Hok Hret Hin Htw. cbn zeta. rewrite Call_stages. cbn zeta.
  pose proof (ShouldTry_frame cb draw) as (Hto & _ & Hfi & Hclk & _).
  destruct (ShouldTry draw cb) as [[ok s] t1].
  unfold value, final, trace in *. cbn [fst snd] in *. subst ok.
  rewrite (@callWithTimeout_in_time f s) by (rewrite Hto; exact Hin).
  cbn [fst snd]. rewrite Hret.
  set (s2 := set_clock _ s).
  assert (Htw2 : tripWorthy s2 e = true).
  { unfold tripWorthy in *. subst s2. cbn. rewrite Hfi. exact Htw. }
  rewrite (MarkResult_failure s2 e Htw2). cbn [fst snd]. subst s2.
  rewrite Hclk. unfold outcomeCount. cbn [negb result_is_timeout].
  repeat split.
  rewrite <- app_assoc. cbn.
  destruct (is_ErrInvocationTimeout e); reflexivity.
Qed.

Lemma Call_failure_witness :
  value (Call 0 (failsWith boom) sampleBreaker) = Some boom
  /\ lastFailureTime (final (Call 0 (failsWith boom) sampleBreaker))
     = Some (5 * time.Millisecond).
Proof.
  destruct (@Call_failure sampleBreaker 0%Q (failsWith boom) boom eq_refl
              eq_refl (or_intror eq_refl) eq_refl) as (Hv & _ & Hl & _).
  split; [exact Hv | exact Hl].
Defined.

(** X5. [callWithTimeout] changes nothing but the clock and reports
    nothing.  It returns what the function returns or the timeout
    sentinel; with a zero timeout, or when the function is faster than the
    timeout, it is the function's result; anything else needs a non-zero
    timeout that the function reaches; a function slower than a non-zero
    timeout gives the sentinel; and with a positive timeout the wait is
    the shorter of the two durations. *)
Theorem callWithTimeout_outcome (f : BreakerFunc) (timeout : time.Duration)
  (cb : circuitBreaker) :
  let r := callWithTimeout f timeout cb in
  trace r = []
  /\ final r = set_clock (clock (final r)) cb
  /\ (value r = returns f \/ value r = Some ErrInvocationTimeout)
  /\ (timeout = 0 \/ takes f < timeout -> value r = returns f)
  /\ (value r <> returns f -> timeout <> 0 /\ timeout <= takes f)
  /\ (timeout <> 0 -> timeout < takes f -> value r = Some ErrInvocationTimeout)
  /\ (0 < timeout -> 0 <= takes f ->
      clock (final r) = time.Add (clock cb) (Z.min (takes f) timeout)).
Proof.
  destruct cb as [? ? ? ? ? ? ? clk st ? ?].
  unfold callWithTimeout, elapse, modify, time.Add. cbn zeta.
  destruct (timeout =? 0) eqn:E0; [ apply Z.eqb_eq in E0 | apply Z.eqb_neq in E0 ];
    [ | destruct (takes f <? timeout) eqn:E1;
        [ apply Z.ltb_lt in E1
        | apply Z.ltb_ge in E1;
          destruct (timeout <? takes f) eqn:E2;
          [ apply Z.ltb_lt in E2 | apply Z.ltb_ge in E2 ] ] ];
    cbn; repeat split; try tauto; try lia; try congruence;
    try (destruct (timerFirst f); tauto);
    try (intros; f_equal; lia).
Qed.












(** No operation rewrites what the options set. *)
Lemma sameConfig_refl cb : sameConfig cb cb.
Proof. repeat split. Qed.

Lemma sameConfig_trans a b c : sameConfig a b -> sameConfig b c -> sameConfig a c.
Proof.
  unfold sameConfig. intros (? & ? & ? & ? & ?) (? & ? & ? & ? & ?).
  repeat split; congruence.
Qed.

Lemma sameConfig_ShouldTry cb draw : sameConfig cb (final (ShouldTry draw cb)).
Proof.
  destruct cb as [? ? ? ? ? ? ? ? st ? ?].
  destruct st; run_breaker; repeat split.
Qed.

Lemma sameConfig_MarkResult cb err : sameConfig cb (final (MarkResult err cb)).
Proof.
  destruct err as [e|].
  - destruct (tripWorthy cb e) eqn:E.
    + rewrite (MarkResult_failure cb e E). repeat split.
    + rewrite (MarkResult_ignored cb e E). repeat split.
  - rewrite MarkResult_nil. repeat split.
Qed.

Lemma sameConfig_step op cb : sameConfig cb (final (step op cb)).
Proof.
  rewrite step_final. destruct op as [ | | draw | err | draw f | d ].
  - destruct cb as [? ? ? ? ? ? ? ? st ? ?]. destruct st; repeat split.
  - rewrite Reset_final. repeat split.
  - apply sameConfig_ShouldTry.
  - apply sameConfig_MarkResult.
  - destruct (Call_final cb draw f) as [-> | (err & now & ->)].
    + apply sameConfig_ShouldTry.
    + apply (sameConfig_trans (sameConfig_ShouldTry cb draw)).
      apply (@sameConfig_trans _ (set_clock now (final (ShouldTry draw cb)))).
      * repeat split.
      * apply sameConfig_MarkResult.
  - repeat split.
Qed.

(** X7. No run changes what was configured: the invocation timeout, the
    retry probability, the concurrency settings and the failure
    interpreter are after the run what they were before. *)
Theorem configuration_is_immutable (ops : list Op) (cb : circuitBreaker) :
  let cb' := after ops cb in
  invocationTimeout cb' = invocationTimeout cb
  /\ halfClosedRetryProbability cb' = halfClosedRetryProbability cb
  /\ maxConcurrency cb' = maxConcurrency cb
  /\ maxConcurrencyTimeout cb' = maxConcurrencyTimeout cb
  /\ failureInterpreter cb' = failureInterpreter cb.
Proof.
  cbn zeta. change (sameConfig cb (after ops cb)).
  revert cb. induction ops as [ | op ops IH ]; intros cb.
  - apply sameConfig_refl.
  - rewrite after_cons.
    exact (sameConfig_trans (sameConfig_step op cb) (IH _)).
Qed.

(** No operation unsets [lastFailureTime]. *)
Lemma lastFailureTime_step op cb :
  lastFailureTime cb <> None -> lastFailureTime (final (step op cb)) <> None.
Proof.
  intros H. rewrite step_final.
  assert (HM : forall err c, lastFailureTime c <> None ->
                             lastFailureTime (final (MarkResult err c)) <> None).
  { intros [e|] c Hc.
    - destruct (tripWorthy c e) eqn:E.
      + rewrite (MarkResult_failure c e E). discriminate.
      + rewrite (MarkResult_ignored c e E). exact Hc.
    - rewrite MarkResult_nil. exact Hc. }
  pose proof (ShouldTry_frame cb) as HS.
  destruct op as [ | | draw | err | draw f | d ].
  - destruct cb as [? ? ? ? ? ? ? ? st ? ?]. destruct st; exact H.
  - rewrite Reset_final. exact H.
  - destruct (HS draw) as (_ & _ & _ & _ & ->). exact H.
  - apply HM, H.
  - destruct (HS draw) as (_ & _ & _ & _ & Hl).
    destruct (Call_final cb draw f) as [-> | (err & now & ->)].
    + rewrite Hl. exact H.
    + apply HM. cbn. rewrite Hl. exact H.
  - exact H.
Qed.

(** X8. Once set, [lastFailureTime] stays set through every run, [Reset]
    and successful results included. *)
Theorem lastFailureTime_is_never_cleared (ops : list Op) (cb : circuitBreaker) :
  lastFailureTime cb <> None -> lastFailureTime (after ops cb) <> None.
Proof.
  apply (after_invariant (fun c => lastFailureTime c <> None)).
  intros op c. apply lastFailureTime_step.
Qed.

Lemma lastFailureTime_is_never_cleared_witness :
  lastFailureTime (after [OpReset; OpTrip; OpMarkResult None] oneFailure)
  <> None.
Proof.
  apply (@lastFailureTime_is_never_cleared
           [OpReset; OpTrip; OpMarkResult None] oneFailure).
  discriminate.
Defined.

(** The moves of the state field, method by method. *)
Lemma ShouldTry_transition cb draw :
  let s := state cb in let s' := state (final (ShouldTry draw cb)) in
  (s' = StateHardOpen <-> s = StateHardOpen)
  /\ (s' = StateHalfClosed -> s = StateOpen)
  /\ s' <> StateZero.
Proof.
  destruct cb as [? ? ? ? ? ? ? ? st ? ?].
  destruct st; run_breaker; repeat split; intros; try discriminate; try reflexivity.
Qed.

Lemma MarkResult_transition cb err :
  let s := state cb in let s' := state (final (MarkResult err cb)) in
  s' = s \/ s' = StateClosed.
Proof.
  destruct err as [e|].
  - destruct (tripWorthy cb e) eqn:E.
    + rewrite (MarkResult_failure cb e E). left. reflexivity.
    + rewrite (MarkResult_ignored cb e E). right. reflexivity.
  - rewrite MarkResult_nil. right. reflexivity.
Qed.

(** The moves of the state field in one operation. *)
Lemma step_transitions (op : Op) (cb : circuitBreaker) :
  let s := state cb in
  let s' := state (final (step op cb)) in
  (s' = StateHardOpen -> s = StateHardOpen \/ op = OpTrip)
  /\ (s = StateHardOpen -> s' = StateHardOpen \/ s' = StateClosed)
  /\ (s' = StateHalfClosed -> s = StateHalfClosed \/ s = StateOpen)
  /\ (s' = StateOpen -> s <> StateHardOpen)
  /\ (s' = StateZero -> s = StateZero).
Proof.
  cbn zeta. rewrite step_final.
  destruct op as [ | | draw | err | draw f | d ].
  - rewrite Trip_state. intuition congruence.
  - rewrite Reset_final. cbn. intuition congruence.
  - destruct (ShouldTry_transition cb draw) as ([H1 H2] & H3 & H4).
    intuition congruence.
  - destruct (MarkResult_transition cb err) as [-> | ->]; intuition congruence.
  - destruct (ShouldTry_transition cb draw) as ([H1 H2] & H3 & H4).
    destruct (Call_final cb draw f) as [-> | (err & now & ->)].
    + intuition congruence.
    + destruct (MarkResult_transition
                  (set_clock now (final (ShouldTry draw cb))) err)
        as [-> | ->]; cbn; intuition congruence.
  - cbn. intuition congruence.
Qed.

(** X9. The moves of the state field in one operation: [StateHardOpen]
    is entered by [Trip] only and left for [StateClosed] only;
    [StateHalfClosed] is entered from [StateOpen] only; [StateOpen] is
    never entered from [StateHardOpen]; the zero state is never
    entered. *)
Theorem state_transitions (op : Op) (cb : circuitBreaker) :
  let s := state cb in
  let s' := state (final (step op cb)) in
  (s' = StateHardOpen -> s = StateHardOpen \/ op = OpTrip)
  /\ (s = StateHardOpen -> s' = StateHardOpen \/ s' = StateClosed)
  /\ (s' = StateHalfClosed -> s = StateHalfClosed \/ s = StateOpen)
  /\ (s' = StateOpen -> s <> StateHardOpen)
  /\ (s' = StateZero -> s = StateZero).
Proof.
  exact (step_transitions op cb).
Qed.

(** X10. After construction and any run, the state is one of the four
    named constants. *)
Theorem reachable_states_are_named (configs : list BreakerConfigFunc) (ops : list Op) :
  Forall is_option configs ->
  let s := state (after ops (NewCircuitBreaker configs)) in
  s = StateOpen \/ s = StateClosed \/ s = StateHalfClosed \/ s = StateHardOpen.
Proof.
  intros Hopt. cbn zeta.
  assert (H : state (after ops (NewCircuitBreaker configs)) <> StateZero).
  { apply (after_invariant (fun c => state c <> StateZero)).
    - intros op c Hc Hz. apply Hc.
      destruct (step_transitions op c) as (_ & _ & _ & _ & H). apply H, Hz.
    - destruct (NewCircuitBreaker_bookkeeping Hopt) as (-> & _). discriminate. }
  destruct (state (after ops (NewCircuitBreaker configs))); auto. congruence.
Qed.

Lemma reachable_states_are_named_witness :
  let s := state (after (fiveFailures ++ [OpShouldTry 0])
                        (NewCircuitBreaker [])) in
  s = StateOpen \/ s = StateClosed \/ s = StateHalfClosed
  \/ s = StateHardOpen.
Proof.
  exact (@reachable_states_are_named [] (fiveFailures ++ [OpShouldTry 0])
           (Forall_nil _)).
Defined.

(** X11. When the breaker is not hard-open and the trip condition does
    not want it tripped, [ShouldTry] allows the attempt and closes the
    breaker, reporting the change if there is one.  Unlike [Reset] it
    keeps [resetTimeout], does not reset the backoff generator and tells
    the trip condition nothing. *)
Theorem ShouldTry_closes_without_reset (cb : circuitBreaker) (draw : Q) :
  state cb <> StateHardOpen ->
  wantsTrip cb = false ->
  let r := ShouldTry draw cb in
  value r = true
  /\ state (final r) = StateClosed
  /\ resetTimeout (final r) = resetTimeout cb
  /\ resetBackoff (final r) = resetBackoff cb
  /\ lastFailureTime (final r) = lastFailureTime cb
  /\ tripCondition (final r) = snd (TripCondition.shouldTrip (tripCondition cb))
  /\ trace r = TripCondition_ShouldTrip
               :: (if CircuitState_eqb (state cb) StateClosed then []
                   else [ReportState StateClosed]).
Proof.
  intros Hh Hw. unfold wantsTrip in Hw.
  destruct cb as [? ? ? ? ? ? ? ? st ? ?]. cbn in *.
  destruct st; try congruence; unfold_breaker; cbn; rewrite Hw; cbn; repeat split.
Qed.

Lemma ShouldTry_closes_without_reset_witness :
  state conditionCleared = StateOpen
  /\ value (ShouldTry 0 conditionCleared) = true
  /\ state (final (ShouldTry 0 conditionCleared)) = StateClosed
  /\ resetTimeout (final (ShouldTry 0 conditionCleared))
     = Some (1000 * time.Millisecond).
Proof.
  destruct (@ShouldTry_closes_without_reset conditionCleared 0%Q
              ltac:(discriminate) eq_refl) as (Hv & Hs & Hr & _).
  split; [reflexivity | split; [exact Hv | split; [exact Hs | ]]].
  rewrite Hr. reflexivity.
Defined.

(** X12. In [StateOpen], while the trip condition wants the breaker
    tripped and the reset timeout has not elapsed (a field is unset, or the
    time since the last failure is shorter), [ShouldTry] refuses and
    changes nothing but what the trip condition did to itself: no interval
    is drawn, no state change reported, no number drawn. *)
Theorem ShouldTry_open_waits (cb : circuitBreaker) (draw : Q) :
  state cb = StateOpen ->
  wantsTrip cb = true ->
  (lastFailureTime cb = None
   \/ resetTimeout cb = None
   \/ exists t d, lastFailureTime cb = Some t /\ resetTimeout cb = Some d
                  /\ time.Sub (clock cb) t < d) ->
  let r := ShouldTry draw cb in
  value r = false
  /\ final r = set_tripCondition (snd (TripCondition.shouldTrip (tripCondition cb))) cb
  /\ state (final r) = StateOpen
  /\ resetTimeout (final r) = resetTimeout cb
  /\ resetBackoff (final r) = resetBackoff cb
  /\ (forall s, ~ In (ReportState s) (trace r))
  /\ ~ In Backoff_NextInterval (trace r)
  /\ ~ In Rand_Float64 (trace r).
Proof.
  intros Hs Hw Hwait. unfold wantsTrip in Hw.
  destruct cb as [? ? ? ? ? ? ? clk st lft rt]. cbn in *. subst st.
  unfold_breaker. cbn. rewrite Hw. cbn.
  destruct Hwait as [-> | [-> | (t & d & -> & -> & Hlt)]].
  - cbn. repeat split; intuition discriminate.
  - destruct lft; cbn; repeat split; intuition discriminate.
  - cbn. apply Z.leb_gt in Hlt. rewrite Hlt. cbn. repeat split; intuition discriminate.
Qed.

Lemma ShouldTry_open_waits_witness :
  value (ShouldTry 0 waiting) = false
  /\ state (final (ShouldTry 0 waiting)) = StateOpen.
Proof.
  destruct (@ShouldTry_open_waits waiting 0%Q eq_refl eq_refl
              (or_intror (or_intror
                 (ex_intro _ 0
                    (ex_intro _ (1000 * time.Millisecond)
                       (conj eq_refl (conj eq_refl eq_refl)))))))
    as (Hv & _ & Hs & _).
  split; assumption.
Defined.

(** X13. How [ShouldTry] uses the backoff generator when the trip
    condition wants the breaker tripped.  From [StateClosed] the generator
    is reset and its first interval taken; from [StateHalfClosed] the next
    interval is taken without a reset, so that the wait follows the
    generator's schedule across failed probes; in [StateOpen] the
    generator and [resetTimeout] are left alone. *)
Theorem ShouldTry_backoff_schedule (cb : circuitBreaker) (draw : Q) :
  wantsTrip cb = true ->
  let r := ShouldTry draw cb in
  let b := resetBackoff cb in
  (state cb = StateClosed ->
   resetTimeout (final r) = Some (fst (backoff.nextInterval (backoff.reset b)))
   /\ resetBackoff (final r) = snd (backoff.nextInterval (backoff.reset b))
   /\ trace r = [TripCondition_ShouldTrip; Backoff_Reset; Backoff_NextInterval;
                 ReportState StateOpen])
  /\ (state cb = StateHalfClosed ->
      resetTimeout (final r) = Some (fst (backoff.nextInterval b))
      /\ resetBackoff (final r) = snd (backoff.nextInterval b)
      /\ trace r = [TripCondition_ShouldTrip; Backoff_NextInterval;
                    ReportState StateOpen])
  /\ (state cb = StateOpen ->
      resetTimeout (final r) = resetTimeout cb
      /\ resetBackoff (final r) = b
      /\ ~ In Backoff_Reset (trace r)
      /\ ~ In Backoff_NextInterval (trace r)).
Proof.
  intros Hw. unfold wantsTrip in Hw. cbn zeta.
  destruct cb as [? ? ? ? b ? ? clk st lft rt]. cbn in *.
  split; [ | split ]; intros Hs; subst st; unfold_breaker; cbn; rewrite Hw; cbn.
  - repeat split.
  - repeat split.
  - destruct lft as [t|], rt as [d|]; cbn; try destruct (d <=? time.Sub clk t); cbn;
      repeat split; intuition discriminate.
Qed.

Lemma ShouldTry_backoff_schedule_witness :
  resetTimeout halfClosedDoubling = Some (1000 * time.Millisecond)
  /\ resetTimeout (final (ShouldTry 0 halfClosedDoubling))
     = Some (2000 * time.Millisecond).
Proof.
  destruct (@ShouldTry_backoff_schedule halfClosedDoubling 0%Q eq_refl)
    as (_ & H & _).
  destruct (H eq_refl) as (Hr & _).
  split; [reflexivity | rewrite Hr; reflexivity].
Defined.

(** X14. The answer of [ShouldTry] and the state it leaves agree: an
    attempt is allowed only in [StateClosed] or [StateHalfClosed]; the
    breaker ends closed exactly when it was not hard-open and the trip
    condition did not want it tripped, and then the attempt is allowed; in
    [StateHalfClosed] the answer is the comparison of the draw with the
    retry probability; in [StateOpen] and [StateHardOpen] it is false. *)
Theorem ShouldTry_answer_and_state (cb : circuitBreaker) (draw : Q) :
  let r := ShouldTry draw cb in
  (value r = true -> state (final r) = StateClosed \/ state (final r) = StateHalfClosed)
  /\ (state (final r) = StateClosed <-> state cb <> StateHardOpen /\ wantsTrip cb = false)
  /\ (state (final r) = StateClosed -> value r = true)
  /\ (state (final r) = StateHalfClosed ->
      value r = float64_lt draw (halfClosedRetryProbability cb))
  /\ (state (final r) = StateOpen \/ state (final r) = StateHardOpen -> value r = false).
Proof.
  cbn zeta. unfold wantsTrip.
  destruct cb as [? ? ? ? b ? tc clk st lft rt]. cbn.
  destruct st; unfold_breaker; cbn;
    destruct (fst (TripCondition.shouldTrip tc)); cbn;
    repeat (split_test; cbn); intuition congruence.
Qed.

(** X15. [Trip] sets the state and nothing else: it records no failure
    and leaves the trip condition, the backoff generator and both optional
    fields alone.  It reports the change unless the breaker was already
    hard-open, and a second [Trip] does and reports nothing. *)
Theorem Trip_changes_state_only (cb : circuitBreaker) :
  let r := Trip cb in
  state (final r) = StateHardOpen
  /\ lastFailureTime (final r) = lastFailureTime cb
  /\ resetTimeout (final r) = resetTimeout cb
  /\ resetBackoff (final r) = resetBackoff cb
  /\ tripCondition (final r) = tripCondition cb
  /\ trace r = (if CircuitState_eqb (state cb) StateHardOpen then []
                else [ReportState StateHardOpen])
  /\ Trip (final r) = (tt, final r, []).
Proof.
  destruct cb as [? ? ? ? ? ? ? ? st ? ?].
  destruct st; cbn; repeat split.
Qed.

(** X26. From any state, hard-open and closed included, [Reset] closes
    the breaker, unsets [resetTimeout], resets the backoff generator and
    tells the trip condition of a success, reporting a state change only
    if there is one; [lastFailureTime] is kept.  A [Trip] before it leaves
    no residue: [Trip] then [Reset] ends where [Reset] alone does. *)
Theorem Reset_from_any_state (cb : circuitBreaker) :
  let r := Reset cb in
  state (final r) = StateClosed
  /\ resetTimeout (final r) = None
  /\ lastFailureTime (final r) = lastFailureTime cb
  /\ resetBackoff (final r) = backoff.reset (resetBackoff cb)
  /\ tripCondition (final r) = TripCondition.success (tripCondition cb)
  /\ trace r = (if CircuitState_eqb (state cb) StateClosed then []
                else [ReportState StateClosed])
               ++ [Backoff_Reset; TripCondition_Success]
  /\ final (Reset (final (Trip cb))) = final r.
Proof.
  destruct cb as [? ? ? ? ? ? ? ? st ? ?].
  destruct st; cbn; repeat split.
Qed.

(** Construction in closed form. *)
Lemma newCircuitBreaker_configure configs :
  Forall is_option configs ->
  newCircuitBreaker configs
  = (set_state StateClosed (configure configs defaults),
     [ReportNew {| MaxConcurrency := maxConcurrency (configure configs defaults) |};
      ReportState StateClosed]).
Proof.
  intros Hopt. destruct (options_keep_bookkeeping defaults Hopt) as (Hs & _ & _).
  unfold newCircuitBreaker, configure. cbn in *.
  match type of Hs with
  | state ?x = _ => destruct x as [? ? ? ? ? ? ? ? st ? ?]
  end.
  cbn in *. subst st. reflexivity.
Qed.

(** X16. Whatever options are passed, a new breaker is closed with both
    optional fields unset, and the collector has been told two things in
    this order: the new breaker with its configured [MaxConcurrency], and
    the closed state. *)
Theorem newCircuitBreaker_starts_closed (configs : list BreakerConfigFunc) :
  Forall is_option configs ->
  let cb := fst (newCircuitBreaker configs) in
  state cb = StateClosed
  /\ lastFailureTime cb = None
  /\ resetTimeout cb = None
  /\ snd (newCircuitBreaker configs)
     = [ReportNew {| MaxConcurrency := maxConcurrency cb |};
        ReportState StateClosed].
Proof.
  intros Hopt. cbn zeta.
  destruct (options_keep_bookkeeping defaults Hopt) as (_ & Hl & Hr).
  rewrite (newCircuitBreaker_configure Hopt). cbn [fst snd].
  repeat split; try assumption.
Qed.

Lemma newCircuitBreaker_starts_closed_witness :
  snd (newCircuitBreaker [WithMaxConcurrency 7])
  = [ReportNew {| MaxConcurrency := 7 |}; ReportState StateClosed].
Proof.
  destruct (@newCircuitBreaker_starts_closed [WithMaxConcurrency 7]
              (Forall_cons _ (opt_MaxConcurrency 7) (Forall_nil _)))
    as (_ & _ & _ & H).
  rewrite H. reflexivity.
Defined.

(** X17. An option passed last decides its field, whatever options came
    before it. *)
Theorem last_option_wins (configs : list BreakerConfigFunc) :
  Forall is_option configs ->
  (forall d, invocationTimeout (NewCircuitBreaker (configs ++ [WithInvocationTimeout d])) = d)
  /\ (forall p, halfClosedRetryProbability
                  (NewCircuitBreaker (configs ++ [WithHalfClosedRetryProbability p])) = p)
  /\ (forall b, resetBackoff (NewCircuitBreaker (configs ++ [WithResetBackoff b])) = b)
  /\ (forall fi, failureInterpreter
                   (NewCircuitBreaker (configs ++ [WithFailureInterpreter fi])) = fi)
  /\ (forall tc, tripCondition (NewCircuitBreaker (configs ++ [WithTripCondition tc])) = tc)
  /\ (forall n, maxConcurrency (NewCircuitBreaker (configs ++ [WithMaxConcurrency n])) = n)
  /\ (forall d, maxConcurrencyTimeout
                  (NewCircuitBreaker (configs ++ [WithMaxConcurrencyTimeout d])) = d)
  /\ (forall t, clock (NewCircuitBreaker (configs ++ [withClock t])) = t).
Proof.
  intros Hopt.
  assert (H : forall o, is_option o ->
            NewCircuitBreaker (configs ++ [o])
            = set_state StateClosed (o (configure configs defaults))).
  { intros o Ho. unfold NewCircuitBreaker.
    rewrite newCircuitBreaker_configure
      by (apply Forall_app; split; [exact Hopt | repeat constructor; exact Ho]).
    unfold configure. rewrite fold_left_app. reflexivity. }
  repeat split; intros x; rewrite H by constructor; reflexivity.
Qed.

Lemma last_option_wins_witness :
  invocationTimeout
    (NewCircuitBreaker
       ([WithInvocationTimeout 5; WithMaxConcurrency 3]
        ++ [WithInvocationTimeout 7])) = 7.
Proof.
  destruct (@last_option_wins [WithInvocationTimeout 5; WithMaxConcurrency 3]
              (Forall_cons _ (opt_InvocationTimeout 5)
                 (Forall_cons _ (opt_MaxConcurrency 3) (Forall_nil _))))
    as (H & _).
  apply H.
Defined.

(** Counting failures with the consecutive-failure condition. *)
Lemma after_failures (k : nat) (e : error) (cb : circuitBreaker) c :
  tripCondition cb = TripCondition.consecutive c ->
  tripWorthy cb e = true ->
  let cb' := after (failures k e) cb in
  state cb' = state cb
  /\ failureInterpreter cb' = failureInterpreter cb
  /\ tripCondition cb'
     = TripCondition.consecutive
         {| TripCondition.count := TripCondition.count c + Z.of_nat k;
            TripCondition.threshold := TripCondition.threshold c |}.
Proof.
  revert cb c. induction k as [ | k IH ]; intros cb c Htc Htw.
  - cbn. rewrite Htc. destruct c. cbn. rewrite Z.add_0_r. repeat split.
  - unfold failures. cbn [repeat]. cbn zeta. rewrite after_cons, step_final.
    rewrite (MarkResult_failure cb e Htw).
    assert (Htc' : tripCondition (afterFailure cb)
                   = TripCondition.consecutive
                       {| TripCondition.count := TripCondition.count c + 1;
                          TripCondition.threshold := TripCondition.threshold c |}).
    { unfold afterFailure. cbn. rewrite Htc. apply failure_consecutive. }
    destruct (IH (afterFailure cb) _ Htc' Htw) as (Hs & Hf & Ht).
    cbn [final fst snd].
    fold (failures k e). rewrite Hs, Hf, Ht. cbn.
    repeat split. do 2 f_equal. lia.
Qed.

Lemma after_app (l1 l2 : list Op) (cb : circuitBreaker) :
  after (l1 ++ l2) cb = after l2 (after l1 cb).
Proof.
  revert cb. induction l1 as [ | op l1 IH ]; intros cb.
  - reflexivity.
  - cbn [app]. rewrite !after_cons. apply IH.
Qed.

Lemma ShouldTry_closed_consecutive (cb : circuitBreaker) c (draw : Q) :
  state cb = StateClosed ->
  tripCondition cb = TripCondition.consecutive c ->
  value (ShouldTry draw cb) = (TripCondition.count c <? TripCondition.threshold c).
Proof.
  intros Hs Htc.
  destruct cb as [? ? ? ? ? ? tc ? st ? ?]. cbn in *. subst st tc.
  unfold_breaker. cbn. rewrite shouldTrip_consecutive. cbn.
  rewrite Z.ltb_antisym.
  destruct (TripCondition.threshold c <=? TripCondition.count c); reflexivity.
Qed.

(** X18. With a fresh consecutive-failure condition of threshold [n], a
    closed breaker that has marked [k] trip-worthy failures in a row
    allows the next attempt exactly when [k < n]; a success in between
    starts the count again. *)
Theorem trips_at_threshold (cb : circuitBreaker) (n : Z) (k : nat) (e : error) (draw : Q) :
  state cb = StateClosed ->
  tripCondition cb = TripCondition.NewConsecutiveFailureTripCondition n ->
  tripWorthy cb e = true ->
  value (ShouldTry draw (after (failures k e) cb)) = (Z.of_nat k <? n)
  /\ (forall j : nat,
        value (ShouldTry draw
                 (after (failures k e ++ [OpMarkResult None] ++ failures j e) cb))
        = (Z.of_nat j <? n)).
Proof.
  intros Hs Htc Htw.
  destruct (after_failures k e cb Htc Htw) as (Hs1 & Hf1 & Ht1).
  split.
  - rewrite (ShouldTry_closed_consecutive _ draw (eq_trans Hs1 Hs) Ht1). reflexivity.
  - intros j. rewrite !after_app, after_cons, step_final, MarkResult_nil.
    cbn [final fst snd after run]. 
    set (cb1 := after (failures k e) cb) in *.
    assert (Htc2 : tripCondition (afterReset cb1)
                   = TripCondition.consecutive
                       {| TripCondition.count := 0; TripCondition.threshold := n |}).
    { unfold afterReset. cbn. rewrite Ht1. apply success_consecutive. }
    assert (Htw2 : tripWorthy (afterReset cb1) e = true).
    { unfold tripWorthy in *. cbn. rewrite Hf1. exact Htw. }
    destruct (after_failures j e (afterReset cb1) Htc2 Htw2) as (Hs2 & Hf2 & Ht2).
    change (after [] (afterReset cb1)) with (afterReset cb1).
    rewrite (ShouldTry_closed_consecutive _ draw Hs2 Ht2). reflexivity.
Qed.

Lemma trips_at_threshold_witness :
  value (ShouldTry 0 (after (failures 4 boom) sampleBreaker)) = true
  /\ value (ShouldTry 0 (after (failures 5 boom) sampleBreaker)) = false.
Proof.
  split.
  - destruct (@trips_at_threshold sampleBreaker 5 4 boom 0%Q
                eq_refl eq_refl eq_refl) as (H & _).
    rewrite H. reflexivity.
  - destruct (@trips_at_threshold sampleBreaker 5 5 boom 0%Q
                eq_refl eq_refl eq_refl) as (H & _).
    rewrite H. reflexivity.
Defined.

(** X19. The earlier breaker's [state] dereferences a nil [resetTimeout]
    in exactly one situation: the trip condition wants the breaker
    tripped, the last state is open, a failure is on record and no timeout
    is. *)
Theorem Legacy_state_panics_iff (now : time.Time) (cb : Legacy.CircuitBreaker) :
  Legacy.state now cb = None
  <-> legacyWantsTrip cb = true
      /\ Legacy.lastState cb = Legacy.OpenState
      /\ Legacy.lastFailureTime cb <> None
      /\ Legacy.resetTimeout cb = None.
Proof.
  unfold legacyWantsTrip, Legacy.state.
  destruct cb as [cfg ht ls lft rt]. cbn.
  destruct (fst (TripCondition.shouldTrip (Legacy.TripCondition cfg))); cbn.
  - destruct ls, lft as [t|], rt as [d|]; cbn;
      repeat (split_test; cbn); intuition congruence.
  - intuition congruence.
Qed.

Lemma Legacy_state_panics_iff_witness :
  Legacy.state (5000 * time.Millisecond) legacyStuck = None.
Proof.
  apply (proj2 (@Legacy_state_panics_iff (5000 * time.Millisecond)
                  legacyStuck)).
  repeat split. discriminate.
Defined.

(** What a call of [state] that does not panic leaves behind. *)
Lemma Legacy_state_post (now : time.Time) (cb : Legacy.CircuitBreaker) :
  (Legacy.lastState cb = Legacy.OpenState ->
   Legacy.lastFailureTime cb <> None -> Legacy.resetTimeout cb <> None) ->
  exists s cb',
    Legacy.state now cb = Some (s, cb')
    /\ Legacy.lastState cb' = s
    /\ Legacy.hardTrip cb' = Legacy.hardTrip cb
    /\ Legacy.lastFailureTime cb' = Legacy.lastFailureTime cb
    /\ (s <> Legacy.ClosedState -> Legacy.lastFailureTime cb' <> None ->
        Legacy.resetTimeout cb' <> None)
    /\ (s = Legacy.HalfClosedState -> Legacy.lastFailureTime cb' <> None)
    /\ (Legacy.lastState cb <> Legacy.OpenState -> s <> Legacy.ClosedState ->
        Legacy.resetTimeout cb' <> None).
Proof.
  unfold Legacy.state.
  destruct cb as [cfg ht ls lft rt]. cbn. intros Hsafe.
  destruct (fst (TripCondition.shouldTrip (Legacy.TripCondition cfg))); cbn.
  - destruct ls, lft as [t|], rt as [d|]; cbn;
      repeat (split_test; cbn);
      try (do 2 eexists; repeat split; cbn; intros; congruence).
    exfalso. apply Hsafe; congruence.
  - do 2 eexists; repeat split; cbn; intros; congruence.
Qed.

(** What [state] and [shouldTry] never touch. *)
Lemma Legacy_state_frame (now : time.Time) (cb : Legacy.CircuitBreaker) s cb' :
  Legacy.state now cb = Some (s, cb') ->
  Legacy.FailureInterpreter (Legacy.config cb') = Legacy.FailureInterpreter (Legacy.config cb)
  /\ Legacy.InvocationTimeout (Legacy.config cb') = Legacy.InvocationTimeout (Legacy.config cb)
  /\ Legacy.HalfClosedRetryProbability (Legacy.config cb')
     = Legacy.HalfClosedRetryProbability (Legacy.config cb)
  /\ Legacy.lastFailureTime cb' = Legacy.lastFailureTime cb
  /\ Legacy.hardTrip cb' = Legacy.hardTrip cb
  /\ Legacy.lastState cb' = s.
Proof.
  unfold Legacy.state.
  destruct cb as [cfg ht ls lft rt]. cbn.
  destruct (fst (TripCondition.shouldTrip (Legacy.TripCondition cfg))); cbn.
  - destruct ls, lft as [t|], rt as [d|]; cbn;
      repeat (split_test; cbn); intros H; inversion H; subst; cbn; repeat split.
  - intros H; inversion H; subst; cbn; repeat split.
Qed.

Lemma Legacy_shouldTry_frame (now : time.Time) (draw : Q) (cb : Legacy.CircuitBreaker) b cb' :
  Legacy.shouldTry now draw cb = Some (b, cb') ->
  Legacy.FailureInterpreter (Legacy.config cb') = Legacy.FailureInterpreter (Legacy.config cb)
  /\ Legacy.InvocationTimeout (Legacy.config cb') = Legacy.InvocationTimeout (Legacy.config cb)
  /\ Legacy.HalfClosedRetryProbability (Legacy.config cb')
     = Legacy.HalfClosedRetryProbability (Legacy.config cb)
  /\ Legacy.lastFailureTime cb' = Legacy.lastFailureTime cb
  /\ Legacy.hardTrip cb' = Legacy.hardTrip cb.
Proof.
  unfold Legacy.shouldTry.
  destruct (Legacy.hardTrip cb) eqn:Hh.
  - intros H; inversion H; subst. repeat split. exact Hh.
  - destruct (Legacy.state now cb) as [[s1 cb1]|] eqn:E1; [ | discriminate ].
    destruct (Legacy_state_frame _ _ E1) as (F1 & F2 & F3 & F4 & F5 & F6).
    destruct (Legacy.CircuitState_eqb s1 Legacy.OpenState).
    + intros H; inversion H; subst. repeat split; congruence.
    + destruct (Legacy.state now cb1) as [[s2 cb2]|] eqn:E2; [ | discriminate ].
      destruct (Legacy_state_frame _ _ E2) as (G1 & G2 & G3 & G4 & G5 & G6).
      destruct (Legacy.CircuitState_eqb s2 Legacy.HalfClosedState);
        intros H; inversion H; subst; repeat split; congruence.
Qed.

(** [legacySafe] is kept by every method. *)
Lemma Legacy_shouldTry_safe (now : time.Time) (draw : Q) (cb : Legacy.CircuitBreaker) :
  legacySafe cb ->
  exists b cb',
    Legacy.shouldTry now draw cb = Some (b, cb')
    /\ legacySafe cb'
    /\ (b = true ->
        Legacy.hardTrip cb' = false
        /\ (Legacy.lastState cb' = Legacy.OpenState -> Legacy.resetTimeout cb' <> None)).
Proof.
  unfold legacySafe, Legacy.shouldTry. intros Hsafe.
  destruct (Legacy.hardTrip cb) eqn:Hh.
  - exists false, cb. repeat split; [ left; exact Hh | discriminate | discriminate ].
  - destruct Hsafe as [Hc | Hsafe]; [ discriminate | ].
    destruct (Legacy_state_post now cb Hsafe)
      as (s1 & cb1 & -> & Hl1 & Hh1 & Hf1 & Hr1 & _ & _).
    destruct s1; cbn.
    + exists false, cb1. repeat split; try discriminate.
      right. intros _ Hlft. apply Hr1; [discriminate | exact Hlft].
    + assert (Hpre : Legacy.lastState cb1 = Legacy.OpenState ->
                     Legacy.lastFailureTime cb1 <> None -> Legacy.resetTimeout cb1 <> None)
        by (rewrite Hl1; discriminate).
      destruct (Legacy_state_post now cb1 Hpre)
        as (s2 & cb2 & -> & Hl2 & Hh2 & Hf2 & Hr2 & _ & Hr2').
      assert (Hne : Legacy.lastState cb1 <> Legacy.OpenState) by (rewrite Hl1; discriminate).
      destruct s2; cbn; do 2 eexists; (split; [reflexivity | ]); split;
        try (right; rewrite Hl2; intros; first [discriminate | apply Hr2'; [exact Hne | discriminate]]);
        intros _; (split; [congruence | ]);
        rewrite Hl2; intros; first [discriminate | apply Hr2'; [exact Hne | discriminate]].
    + assert (Hpre : Legacy.lastState cb1 = Legacy.OpenState ->
                     Legacy.lastFailureTime cb1 <> None -> Legacy.resetTimeout cb1 <> None)
        by (rewrite Hl1; discriminate).
      destruct (Legacy_state_post now cb1 Hpre)
        as (s2 & cb2 & -> & Hl2 & Hh2 & Hf2 & Hr2 & _ & Hr2').
      assert (Hne : Legacy.lastState cb1 <> Legacy.OpenState) by (rewrite Hl1; discriminate).
      destruct s2; cbn; do 2 eexists; (split; [reflexivity | ]); split;
        try (right; rewrite Hl2; intros; first [discriminate | apply Hr2'; [exact Hne | discriminate]]);
        intros _; (split; [congruence | ]);
        rewrite Hl2; intros; first [discriminate | apply Hr2'; [exact Hne | discriminate]].
Qed.

Lemma legacySafe_step (op : LegacyOp) (cb : Legacy.CircuitBreaker) :
  legacySafe cb -> exists cb', legacyStep op cb = Some cb' /\ legacySafe cb'.
Proof.
  intros Hsafe. destruct op as [now done draw f | now | ]; cbn.
  - unfold Legacy.Call.
    destruct (Legacy_shouldTry_safe now draw Hsafe) as (b & cb1 & -> & Hs1 & Hb).
    destruct b.
    + destruct (Hb eq_refl) as (Hh & Hr).
      assert (Hrec : legacySafe (Legacy.recordFailure done cb1))
        by (right; cbn; intros Ho _; apply Hr, Ho).
      assert (Hres : legacySafe (Legacy.Reset cb1))
        by (right; cbn; intros _ H; congruence).
      destruct (Legacy.callWithTimeout f cb1) as [err|].
      * destruct (FailureInterpreter.shouldTrip _ err); eexists; split; try reflexivity; assumption.
      * eexists; split; [reflexivity | assumption].
    + eexists; split; [reflexivity | assumption].
  - eexists; split; [reflexivity | left; reflexivity].
  - eexists; split; [reflexivity | right; cbn; intros _ H; congruence].
Qed.

(** X20. In sequential use that situation does not arise: after any run
    of [Call], [Trip] and [Reset] on a new breaker, under any strategies,
    every further [Call] returns. *)
Theorem Legacy_sequential_use_never_panics (c : Legacy.CircuitBreakerConfig)
  (ops : list LegacyOp) :
  exists cb,
    legacyRun ops (Legacy.NewCircuitBreaker c) = Some cb
    /\ forall now done draw f, Legacy.Call now done draw f cb <> None.
Proof.
  assert (H0 : legacySafe (Legacy.NewCircuitBreaker c))
    by (right; cbn; intros _ H; congruence).
  revert H0. generalize (Legacy.NewCircuitBreaker c).
  induction ops as [ | op ops IH ]; intros cb Hsafe.
  - exists cb. split; [reflexivity | ].
    intros now done draw f.
    destruct (legacySafe_step (LegacyCall now done draw f) Hsafe) as (cb' & H & _).
    cbn in H. destruct (Legacy.Call now done draw f cb); [discriminate | discriminate H].
  - destruct (legacySafe_step op Hsafe) as (cb' & H & Hsafe').
    cbn. rewrite H. apply IH, Hsafe'.
Qed.

(** X21. In the earlier breaker [Trip] counts as a failure (it
    timestamps one and tells the trip condition) and sets a flag that
    [Reset] alone clears: through any run without [Reset], every [Call]
    returns [CircuitOpenError] and leaves the breaker as it is. *)
Theorem Legacy_Trip_blocks (now : time.Time) (cb : Legacy.CircuitBreaker)
  (ops : list LegacyOp) :
  Forall (fun op => op <> LegacyReset) ops ->
  let tripped := Legacy.Trip now cb in
  Legacy.lastFailureTime tripped = Some now
  /\ Legacy.TripCondition (Legacy.config tripped)
     = TripCondition.failure (Legacy.TripCondition (Legacy.config cb))
  /\ exists cb',
       legacyRun ops tripped = Some cb'
       /\ Legacy.hardTrip cb' = true
       /\ (forall now' done draw f,
             Legacy.Call now' done draw f cb'
             = Some (Some Legacy.CircuitOpenError, cb'))
       /\ Legacy.hardTrip (Legacy.Reset cb') = false.
Proof.
  intros Hops. cbn zeta. split; [reflexivity | split; [reflexivity | ]].
  assert (Hcall : forall c, Legacy.hardTrip c = true ->
            forall now' done draw f,
              Legacy.Call now' done draw f c = Some (Some Legacy.CircuitOpenError, c)).
  { intros c Hc now' done draw f. unfold Legacy.Call, Legacy.shouldTry. rewrite Hc. reflexivity. }
  assert (H0 : Legacy.hardTrip (Legacy.Trip now cb) = true) by reflexivity.
  revert H0. generalize (Legacy.Trip now cb).
  induction Hops as [ | op ops Hop _ IH ]; intros c Hc.
  - exists c. repeat split; auto.
  - destruct op as [now' done draw f | now' | ]; cbn.
    + rewrite (Hcall c Hc). apply IH, Hc.
    + apply IH. reflexivity.
    + congruence.
Qed.

Lemma Legacy_Trip_blocks_witness :
  exists cb,
    legacyRun [LegacyCall 1 2 0 succeeds; LegacyTrip 3]
              (Legacy.Trip 0 (Legacy.NewCircuitBreaker legacyConfig))
    = Some cb
    /\ Legacy.hardTrip cb = true.
Proof.
  assert (Hops : Forall (fun op => op <> LegacyReset)
                        [LegacyCall 1 2 0 succeeds; LegacyTrip 3])
    by (repeat constructor; discriminate).
  destruct (@Legacy_Trip_blocks 0 (Legacy.NewCircuitBreaker legacyConfig)
              [LegacyCall 1 2 0 succeeds; LegacyTrip 3] Hops)
    as (_ & _ & cb & Hrun & Hh & _).
  exists cb. split; assumption.
Defined.

(** X22. What the earlier [Call] can return.  Nil means the breaker has
    been reset (flag cleared, both optional fields unset), whether the
    function succeeded or its error was set aside.  An error is either
    [CircuitOpenError] for a refused attempt, or an error the interpreter
    counts, timestamped as a failure. *)
Theorem Legacy_Call_outcomes (now done : time.Time) (draw : Q) (f : BreakerFunc)
  (cb cb' : Legacy.CircuitBreaker) (out : result) :
  Legacy.Call now done draw f cb = Some (out, cb') ->
  match out with
  | None =>
      Legacy.hardTrip cb' = false
      /\ Legacy.lastFailureTime cb' = None
      /\ Legacy.resetTimeout cb' = None
  | Some e =>
      (e = Legacy.CircuitOpenError
       /\ Legacy.shouldTry now draw cb = Some (false, cb'))
      \/ (FailureInterpreter.shouldTrip
            (Legacy.FailureInterpreter (Legacy.config cb)) e = true
          /\ Legacy.lastFailureTime cb' = Some done)
  end.
Proof.
  unfold Legacy.Call.
  destruct (Legacy.shouldTry now draw cb) as [[b cb1]|] eqn:E; [ | discriminate ].
  destruct (Legacy_shouldTry_frame _ _ _ E) as (Hfi & _).
  destruct b.
  - destruct (Legacy.callWithTimeout f cb1) as [err|].
    + rewrite Hfi.
      destruct (FailureInterpreter.shouldTrip _ err) eqn:Ei;
        intros H; inversion H; subst; cbn.
      * right. split; [exact Ei | reflexivity].
      * repeat split.
    + intros H; inversion H; subst; cbn. repeat split.
  - intros H; inversion H; subst. left. split; reflexivity.
Qed.

Lemma Legacy_Call_outcomes_witness :
  (boom = Legacy.CircuitOpenError
   /\ Legacy.shouldTry 0 0 (Legacy.NewCircuitBreaker legacyConfig)
      = Some (false, legacyAfterFailure))
  \/ (FailureInterpreter.shouldTrip serverErrors boom = true
      /\ Legacy.lastFailureTime legacyAfterFailure = Some 7).
Proof.
  exact (@Legacy_Call_outcomes 0 7 0%Q (failsWith boom)
           (Legacy.NewCircuitBreaker legacyConfig) legacyAfterFailure
           (Some boom) eq_refl).
Defined.

(** X23. In the earlier breaker a timeout goes through the interpreter
    like any error: when the interpreter sets [InvocationTimeoutError]
    aside, an admitted call that times out returns nil and resets the
    breaker. *)
Theorem Legacy_ignored_timeout_is_swallowed (now done : time.Time) (draw : Q)
  (f : BreakerFunc) (cb cb1 : Legacy.CircuitBreaker) :
  Legacy.shouldTry now draw cb = Some (true, cb1) ->
  Legacy.InvocationTimeout (Legacy.config cb) <> 0 ->
  Legacy.InvocationTimeout (Legacy.config cb) < takes f ->
  FailureInterpreter.shouldTrip (Legacy.FailureInterpreter (Legacy.config cb))
                                Legacy.InvocationTimeoutError = false ->
  Legacy.Call now done draw f cb = Some (None, Legacy.Reset cb1).
Proof.
  intros E Hz Hlate Hign.
  destruct (Legacy_shouldTry_frame _ _ _ E) as (Hfi & Hto & _).
  unfold Legacy.Call. rewrite E. unfold Legacy.callWithTimeout. rewrite Hto.
  apply Z.eqb_neq in Hz. rewrite Hz.
  destruct (takes f <? Legacy.InvocationTimeout (Legacy.config cb)) eqn:E1;
    [ apply Z.ltb_lt in E1; lia | ].
  apply Z.ltb_lt in Hlate. rewrite Hlate, Hfi, Hign. reflexivity.
Qed.

Lemma Legacy_ignored_timeout_is_swallowed_witness :
  Legacy.Call 0 0 0 slow (Legacy.NewCircuitBreaker legacyLenient)
  = Some (None, Legacy.Reset legacyAdmitted).
Proof.
  apply (@Legacy_ignored_timeout_is_swallowed 0 0 0%Q slow
           (Legacy.NewCircuitBreaker legacyLenient) legacyAdmitted).
  - reflexivity.
  - discriminate.
  - reflexivity.
  - reflexivity.
Defined.

(** X24. When the earlier [shouldTry] leaves the breaker half-closed its
    answer is [draw <= probability]: with probability 1 every draw up to 1
    passes, and with probability 0 a draw of exactly 0 still passes. *)
Theorem Legacy_half_closed_test (now : time.Time) (draw : Q)
  (cb cb' : Legacy.CircuitBreaker) (b : bool) :
  Legacy.shouldTry now draw cb = Some (b, cb') ->
  Legacy.hardTrip cb = false ->
  Legacy.lastState cb' = Legacy.HalfClosedState ->
  let p := Legacy.HalfClosedRetryProbability (Legacy.config cb) in
  b = Qle_bool draw p
  /\ (p == 0 -> draw == 0 -> b = true)%Q
  /\ (p == 1 -> draw <= 1 -> b = true)%Q.
Proof.
  intros E Hh Hl. cbn zeta.
  destruct (Legacy_shouldTry_frame _ _ _ E) as (_ & _ & Hp & _).
  assert (Hb : b = Qle_bool draw (Legacy.HalfClosedRetryProbability (Legacy.config cb))).
  { rewrite <- Hp. revert E. unfold Legacy.shouldTry. rewrite Hh.
    destruct (Legacy.state now cb) as [[s1 cb1]|] eqn:E1; [ | discriminate ].
    destruct (Legacy_state_frame _ _ E1) as (_ & _ & _ & _ & _ & L1).
    destruct s1; cbn.
    - intros H; inversion H; subst. congruence.
    - destruct (Legacy.state now cb1) as [[s2 cb2]|] eqn:E2; [ | discriminate ].
      destruct (Legacy_state_frame _ _ E2) as (_ & _ & _ & _ & _ & L2).
      destruct s2; cbn; intros H; inversion H; subst; congruence.
    - destruct (Legacy.state now cb1) as [[s2 cb2]|] eqn:E2; [ | discriminate ].
      destruct (Legacy_state_frame _ _ E2) as (_ & _ & _ & _ & _ & L2).
      destruct s2; cbn; intros H; inversion H; subst; congruence. }
  split; [exact Hb | split]; intros Hp' Hd; rewrite Hb; apply Qle_bool_iff;
    rewrite Hp'.
  - rewrite Hd. apply Qle_refl.
  - exact Hd.
Qed.

Lemma Legacy_half_closed_test_witness :
  Legacy.shouldTry (2000 * time.Millisecond) 0 legacyAfterFailure
  = Some (true, legacyProbing)
  /\ true = Qle_bool 0 (Legacy.HalfClosedRetryProbability
                          (Legacy.config legacyAfterFailure)).
Proof.
  split; [reflexivity | ].
  destruct (@Legacy_half_closed_test (2000 * time.Millisecond) 0%Q
              legacyAfterFailure legacyProbing true
              eq_refl eq_refl eq_refl) as (H & _).
  exact H.
Defined.

(** X25. The earlier [shouldTry] computes the state twice.  At the first
    question after a trip (last state closed, a failure on record, the
    trip condition steadily wanting the trip), once the first interval
    has elapsed, the generator is reset and asked twice, and the timeout
    kept is its second interval. *)
Theorem Legacy_shouldTry_asks_twice (now t : time.Time) (draw : Q)
  (cb : Legacy.CircuitBreaker) :
  Legacy.hardTrip cb = false ->
  Legacy.lastState cb = Legacy.ClosedState ->
  TripCondition.shouldTrip (Legacy.TripCondition (Legacy.config cb))
  = (true, Legacy.TripCondition (Legacy.config cb)) ->
  Legacy.lastFailureTime cb = Some t ->
  let first :=
    backoff.nextInterval (backoff.reset (Legacy.ResetBackoff (Legacy.config cb))) in
  let second := backoff.nextInterval (snd first) in
  fst first <= time.Sub now t ->
  exists b cb',
    Legacy.shouldTry now draw cb = Some (b, cb')
    /\ Legacy.resetTimeout cb' = Some (fst second)
    /\ Legacy.ResetBackoff (Legacy.config cb') = snd second.
Proof.
  intros Hh Hl Htc Hf. cbn zeta. intros Hel.
  destruct cb as [cfg ht ls lft rt]. cbn in *. subst ht ls lft.
  apply Z.leb_le in Hel.
  unfold Legacy.shouldTry, Legacy.state. cbn.
  rewrite Htc. cbn. rewrite Hel. cbn. rewrite Htc. cbn.
  split_test; cbn; do 2 eexists; repeat split.
Qed.

Lemma Legacy_shouldTry_asks_twice_witness :
  exists b cb,
    Legacy.shouldTry (5000 * time.Millisecond) 0 legacyDoubling = Some (b, cb)
    /\ Legacy.resetTimeout cb = Some (2000 * time.Millisecond).
Proof.
  destruct (@Legacy_shouldTry_asks_twice (5000 * time.Millisecond) 0 0%Q
              legacyDoubling eq_refl eq_refl eq_refl eq_refl
              ltac:(vm_compute; discriminate))
    as (b & cb & H & Hr & _).
  exists b, cb. split; [exact H | exact Hr].
Defined.
